(** * iAnchor: the sampler factory, the image sampler and the Anchor entry point

    Shallow embedding of [src/Anchor/anchor.py] and
    [src/ianchor/samplers/__init__.py].

    Python exceptions are values of [exn]; code that can raise returns a
    [result]; code that also touches mutable state (the attributes of [self],
    the calls made to the black-box model) runs in the state-and-exception
    monad [M].  Torch tensors are a shape together with row-major contents;
    where a statement is about what a method writes, they are objects in a
    store and the attributes of a sampler refer to them (section
    [Objects]). *)

From Stdlib Require Import ZArith QArith List String Lia.
From stdpp Require Import base decidable countable gmap strings list sorting.

Local Open Scope string_scope.
Local Open Scope list_scope.
Local Open Scope nat_scope.

(** ** Exceptions, results and the state monad *)

Inductive exn : Type :=
| ValueError (msg : string)
| TypeError
| AssertionError
| IndexError
| RuntimeError
| FrozenInstanceError
| AttributeError.

(** The Python class name of an exception. *)
Definition exn_name (e : exn) : string :=
  match e with
  | ValueError _ => "ValueError"
  | TypeError => "TypeError"
  | AssertionError => "AssertionError"
  | IndexError => "IndexError"
  | RuntimeError => "RuntimeError"
  | FrozenInstanceError => "FrozenInstanceError"
  | AttributeError => "AttributeError"
  end.

Inductive result (A : Type) : Type :=
| Ok (a : A)
| Raise (e : exn).
Arguments Ok {A} a.
Arguments Raise {A} e.

Definition is_ok {A} (r : result A) : bool :=
  match r with Ok _ => true | Raise _ => false end.

#[global] Instance result_ret : MRet result := fun A a => Ok a.
#[global] Instance result_bind : MBind result := fun A B f r =>
  match r with
  | Ok a => f a
  | Raise e => Raise e
  end.
#[global] Instance result_fmap : FMap result := fun A B f r =>
  match r with
  | Ok a => Ok (f a)
  | Raise e => Raise e
  end.

(** A computation over a mutable state [S].  A raised exception keeps the
    state reached so far: Python does not roll back side effects. *)
Definition M (S A : Type) : Type := S -> result A * S.

#[global] Instance M_ret {S} : MRet (M S) := fun A a s => (Ok a, s).
#[global] Instance M_bind {S} : MBind (M S) := fun A B f c s =>
  match c s with
  | (Ok a, s') => f a s'
  | (Raise e, s') => (Raise e, s')
  end.

Definition raise {S A} (e : exn) : M S A := fun s => (Raise e, s).
Definition lift {S A} (r : result A) : M S A := fun s => (r, s).

(** [assert cond] *)
Definition py_assert (cond : bool) : result unit :=
  if cond then Ok tt else Raise AssertionError.

(** ** Tensors *)

Record tensor (A : Type) : Type := Tensor { shape : list nat; flat : list A }.
Arguments Tensor {A} shape flat.
Arguments shape {A} t.
Arguments flat {A} t.

Definition numel (sh : list nat) : nat := foldr Nat.mul 1 sh.

(** A tensor is well formed when it stores one element per index. *)
Definition tensor_wf {A} (t : tensor A) : Prop :=
  length (flat t) = numel (shape t).

Section TensorOps.
Context {A : Type}.

(** All multi-indices of a shape, in row-major order. *)
Fixpoint indices (sh : list nat) : list (list nat) :=
  match sh with
  | [] => [[]]
  | d :: sh' => i ← seq 0 d; (cons i) <$> indices sh'
  end.

(** Row-major position of a multi-index. *)
Definition offset (sh idx : list nat) : nat :=
  fold_left (fun acc di => acc * di.1 + di.2) (zip sh idx) 0.

(** The index [idx] of the permuted source with [idx !! d = idx' !! k]
    whenever [dims !! k = d]. *)
Definition unpermute (dims idx' : list nat) : list nat :=
  omap (fun d => p ← list_find (fun d' => d' = d) dims; idx' !! p.1)
       (seq 0 (length dims)).

(** [t.permute( *dims )]; [dims] is a literal permutation at every call
    site, so only the number of dimensions can be wrong. *)
Definition permute (dims : list nat) (t : tensor A) : result (tensor A) :=
  if decide (length dims = length (shape t)) then
    let sh' := omap (fun d => shape t !! d) dims in
    Ok (Tensor sh'
          (omap (fun idx' => flat t !! offset (shape t) (unpermute dims idx'))
                (indices sh')))
  else Raise RuntimeError.

(** [t.unsqueeze(0)] *)
Definition unsqueeze0 (t : tensor A) : tensor A :=
  Tensor (1 :: shape t) (flat t).

(** [t.shape[i]]: [shape] is a tuple, indexing past its end raises. *)
Definition shape_at (t : tensor A) (i : nat) : result nat :=
  match shape t !! i with
  | Some d => Ok d
  | None => Raise IndexError
  end.

(** [t[0]] *)
Definition index0 (t : tensor A) : result (tensor A) :=
  match shape t with
  | [] => Raise IndexError
  | 0 :: _ => Raise IndexError
  | S _ :: sh => Ok (Tensor sh (take (numel sh) (flat t)))
  end.

(** [torch.stack(ts)] along a new leading dimension. *)
Definition stack (ts : list (tensor A)) : result (tensor A) :=
  match ts with
  | [] => Raise RuntimeError
  | t0 :: _ =>
      if forallb (fun t => bool_decide (shape t = shape t0)) ts
      then Ok (Tensor (length ts :: shape t0) (concat (flat <$> ts)))
      else Raise RuntimeError
  end.

(** Iterating a tensor yields its slices along the first dimension. *)
Definition rows (t : tensor A) : list (list A) :=
  match shape t with
  | [] => []
  | n :: sh =>
      (fun i => take (numel sh) (drop (i * numel sh) (flat t))) <$> seq 0 n
  end.

(** [mask] selects blocks of [B] consecutive elements of a tensor whose
    leading dimensions are those of the mask. *)
Definition selected (B : nat) (mask : list bool) (k : nat) : bool :=
  match mask !! (k / B) with
  | Some b => b
  | None => false
  end.

(** The blocks picked by [t[mask]] (or [t[mask, :]]), in order. *)
Definition masked_select (B : nat) (mask : list bool) (data : list A)
  : list (list A) :=
  omap (fun ib : nat * bool =>
          if ib.2 then Some (take B (drop (ib.1 * B) data)) else None)
       (imap pair mask).

(** [dst[mask] = src[mask]] for [dst] and [src] of one shape. *)
Definition masked_copy (B : nat) (mask : list bool) (src dst : list A)
  : list A :=
  imap (fun k x => if selected B mask k then default x (src !! k) else x) dst.

(** [dst[mask, :] = v], the block [v] broadcast to every selected block. *)
Definition masked_fill (B : nat) (mask : list bool) (v dst : list A)
  : list A :=
  imap (fun k x =>
          if selected B mask k then default x (v !! (k mod B)) else x) dst.

(** Boolean-mask indexing needs the mask's shape to be the leading
    dimensions of the indexed tensor. *)
Definition check_mask (mask_shape : list nat) (t : tensor A) : result nat :=
  if decide (mask_shape = take (length mask_shape) (shape t))
  then Ok (numel (drop (length mask_shape) (shape t)))
  else Raise IndexError.
End TensorOps.

(** ** What the code takes from torch and skimage

    Of the elements of the tensors the development only needs their order
    (for [argmax]) and their mean, and keeps both abstract.  [floating_point]
    tells whether the element type is a floating-point dtype: [torch.mean]
    refuses the others.  [quickshift] is skimage's segmentation, called with
    the fixed parameters of [ImageSampler.__init__]. *)
Class Torch : Type := {
  scalar : Type;
  floating_point : bool;
  scalar_ltb : scalar -> scalar -> bool;
  mean : list scalar -> scalar;
  quickshift : tensor scalar -> tensor Z
}.

Section Numeric.
Context `{Torch}.

(** Position of the first maximal element: [best] at [best_i] so far,
    [l] starts at position [i]. *)
Fixpoint argmax_from (best_i : nat) (best : scalar) (i : nat)
         (l : list scalar) : nat :=
  match l with
  | [] => best_i
  | x :: l' =>
      if scalar_ltb best x then argmax_from i x (S i) l'
      else argmax_from best_i best (S i) l'
  end.

Definition argmax_list (l : list scalar) : option nat :=
  match l with
  | [] => None
  | x :: l' => Some (argmax_from 0 x 1 l')
  end.

(** [torch.argmax(t)]: position in the flattened tensor; an empty tensor
    is refused. *)
Definition argmax (t : tensor scalar) : result nat :=
  match argmax_list (flat t) with
  | Some i => Ok i
  | None => Raise IndexError
  end.

(** The scores [t[i, 0, r], t[i, 1, r], ...] for [t] of shape
    [n :: k :: rest] with [R = numel rest]. *)
Definition lane (k R : nat) (t : tensor scalar) (i r : nat) : list scalar :=
  omap (fun j => flat t !! ((i * k + j) * R + r)) (seq 0 k).

(** [torch.argmax(t, axis=1)] *)
Definition argmax_axis1 (t : tensor scalar) : result (tensor nat) :=
  match shape t with
  | n :: k :: rest =>
      let R := numel rest in
      if decide (k = 0) then Raise IndexError
      else
        Ok (Tensor (n :: rest)
              (i ← seq 0 n;
               omap (fun r => argmax_list (lane k R t i r)) (seq 0 R)))
  | _ => Raise IndexError
  end.

(** [torch.mean(blocks, axis=0)] for blocks of [B] elements. *)
Definition mean_axis0 (B : nat) (blocks : list (list scalar)) : list scalar :=
  (fun c => mean (omap (fun b : list scalar => b !! c) blocks)) <$> seq 0 B.
End Numeric.

(** [torch.randint(0, 2, (rows, cols))]; the bits come from the generator
    state, here a stream [g] indexed by position. *)
Definition randint (g : nat -> bool) (n_rows : Z) (n_cols : nat)
  : result (tensor Z) :=
  if decide (n_rows < 0)%Z then Raise RuntimeError
  else
    let n := Z.to_nat n_rows in
    Ok (Tensor [n; n_cols] ((fun k => Z.b2z (g k)) <$> seq 0 (n * n_cols))).

(** An entry of an index tensor addresses a dimension of size [n]; negative
    entries count from the end. *)
Definition norm_index (n : nat) (p : Z) : result nat :=
  if decide (0 <= p < Z.of_nat n)%Z then Ok (Z.to_nat p)
  else if decide (- Z.of_nat n <= p < 0)%Z then Ok (Z.to_nat (Z.of_nat n + p))
  else Raise IndexError.

(** [data[:, present] = v] on a matrix.  The indices are checked while the
    selected entries are visited: on a matrix without rows there is nothing
    to visit and nothing is checked. *)
Definition set_columns (present : list Z) (v : Z) (data : tensor Z)
  : result (tensor Z) :=
  match shape data with
  | [n; f] =>
      if decide (n = 0) then Ok data
      else
        cols ← mapM (norm_index f) present;
        Ok (Tensor (shape data)
              (imap (fun k x => if decide (k mod f ∈ cols) then v else x)
                    (flat data)))
  | _ => Raise IndexError
  end.

(** [torch.unique(t)]: the distinct values, sorted. *)
Definition unique (t : tensor Z) : list Z :=
  merge_sort Z.le (remove_dups (flat t)).

(** [torch.where(row == 0)[0]] *)
Definition where_zero (row : list Z) : list nat :=
  omap (fun jv : nat * Z => if decide (jv.2 = 0%Z) then Some jv.1 else None)
       (imap pair row).

(** ** src/Anchor/anchor.py *)

Inductive Tasktype : Type := TABULAR | IMAGE | TEXT.

#[global] Instance Tasktype_eq_dec : EqDecision Tasktype.
Proof. solve_decision. Defined.

(** [auto()] numbers the members from 1. *)
Definition Tasktype_value (t : Tasktype) : positive :=
  match t with TABULAR => 1 | IMAGE => 2 | TEXT => 3 end%positive.

#[global] Instance Tasktype_countable : Countable Tasktype.
Proof.
  refine (inj_countable' Tasktype_value
            (fun p => match p with
                      | 1 => TABULAR | 2 => IMAGE | _ => TEXT
                      end%positive) _).
  intros []; reflexivity.
Defined.

(** Keyword arguments: the code only forwards them. *)
Definition kwargs : Type := list (string * Z).

Section Samplers.
Context `{Torch}.

(** The black-box model and the log of the batches it was called on. *)
Definition predictor : Type := tensor scalar -> tensor scalar.
Definition calls : Type := list (tensor scalar).

(** [predict_fn(x)] *)
Definition call_predict (predict_fn : predictor) (x : tensor scalar)
  : M calls (tensor scalar) :=
  fun log => (Ok (predict_fn x), log ++ [x]).

(** The attributes of an [ImageSampler] object. *)
Record ImageSampler : Type := {
  label : nat;
  segments : tensor Z;
  n_features : nat;
  sp_image : tensor scalar;
  image : tensor scalar;
  predict_fn : predictor
}.

(** One round of the loop of [__init__]:
    [sp_image[segments == spixel, :] = mean(sp_image[segments == spixel, :], axis=0)];
    the selection is made first, then [torch.mean] runs, which raises on a
    tensor that is not floating point. *)
Definition fill_segment_mean (segs : tensor Z) (sp : tensor scalar)
           (spixel : Z) : result (tensor scalar) :=
  let mask := (fun s => bool_decide (s = spixel)) <$> flat segs in
  B ← check_mask (shape segs) sp;
  if decide (length (shape segs) < length (shape sp)) then
    if floating_point then
      let m := mean_axis0 B (masked_select B mask (flat sp)) in
      Ok (Tensor (shape sp) (masked_fill B mask m (flat sp)))
    else Raise RuntimeError
  else Raise IndexError.

Fixpoint for_each {X S} (xs : list X) (body : S -> X -> result S) (s : S)
  : result S :=
  match xs with
  | [] => Ok s
  | x :: xs' => s' ← body s x; for_each xs' body s'
  end.

(** [input.permute(2, 0, 1).unsqueeze(0)]: the batch holding the single
    original instance. *)
Definition instance_batch (input : tensor scalar) : result (tensor scalar) :=
  unsqueeze0 <$> permute [2; 0; 1] input.

(** [ImageSampler.__init__].  Tensors are values here, so the loop starts
    from [input] itself where the code starts from [torch.clone(input)];
    [ImageSampler_init_h] below has the copy. *)
Definition ImageSampler_init (input : tensor scalar) (predict_fn : predictor)
           (kw : kwargs) : M calls ImageSampler :=
  c ← lift (shape_at input 2);
  _ ← lift (py_assert (bool_decide (c = 3)));
  x ← lift (instance_batch input);
  preds ← call_predict predict_fn x;
  row ← lift (index0 preds);
  label ← lift (argmax row);
  let segments := quickshift input in
  let segment_features := unique segments in
  let n_features := length segment_features in
  sp_image ← lift (for_each segment_features (fill_segment_mean segments) input);
  mret {| label := label; segments := segments; n_features := n_features;
          sp_image := sp_image; image := input; predict_fn := predict_fn |}.
End Samplers.

Section SamplerMethods.
Context `{Torch}.

(** What [__init__] establishes about the shapes of the attributes: the
    image has three dimensions, the superpixel image has the image's shape
    and the segmentation has its leading dimensions. *)
Definition sampler_wf (s : ImageSampler) : Prop :=
  length (shape (image s)) = 3 /\
  shape (sp_image s) = shape (image s) /\
  shape (segments s) = take (length (shape (segments s))) (shape (image s)).

(** [ImageSampler.__generate_image]; [img] starts as a clone of
    [self.image].  [__init__] cloned [sp_image] from the same input, so on a
    constructed sampler the two have one shape (lemma
    [ImageSampler_init_shapes]) and the copy is element by element.  For
    attributes of different shapes, which only a caller that replaces an
    attribute can produce and on which torch would try to broadcast, the
    copy is refused here. *)
Definition generate_image (self : ImageSampler) (feature_mask : list Z)
  : result (tensor scalar) :=
  let img := image self in
  let zeros := where_zero feature_mask in
  let mask0 := (fun _ => false) <$> flat (segments self) in
  let mask :=
    fold_left
      (fun (m : list bool) (z : nat) =>
         (fun bs : bool * Z =>
            if bool_decide (bs.2 = Z.of_nat z) then true else bs.1)
           <$> zip m (flat (segments self)))
      zeros mask0 in
  _ ← check_mask (shape (segments self)) (sp_image self);
  B ← check_mask (shape (segments self)) img;
  if decide (shape (sp_image self) = shape img)
  then Ok (Tensor (shape img) (masked_copy B mask (flat (sp_image self)) (flat img)))
  else Raise RuntimeError.

(** The state of a method call on an [ImageSampler]: the object and the
    log of model calls. *)
Definition this : M (ImageSampler * calls) ImageSampler :=
  fun st => (Ok st.1, st).

Definition with_calls {A} (c : M calls A) : M (ImageSampler * calls) A :=
  fun st => let (r, log') := c st.2 in (r, (st.1, log')).

(** [(preds_max == label).int()] *)
Definition label_match (label : nat) (preds_max : tensor nat) : tensor Z :=
  Tensor (shape preds_max)
         ((fun c => Z.b2z (bool_decide (c = label))) <$> flat preds_max).

Definition ImageSampler_sample (present : list Z) (num_samples : Z)
           (g : nat -> bool)
  : M (ImageSampler * calls) (tensor Z * tensor Z * tensor Z) :=
  self ← this;
  data ← lift (randint g num_samples (n_features self));
  data ← lift (set_columns present 1 data);
  imgs ← lift (mapM (generate_image self) (rows data));
  samples ← lift (stack imgs);
  batch ← lift (permute [0; 3; 1; 2] samples);
  preds ← with_calls (call_predict (predict_fn self) batch);
  preds_max ← lift (argmax_axis1 preds);
  let labels := label_match (label self) preds_max in
  mret (segments self, data, labels).

(** The first five statements of [sample] up to the argument of
    [predict_fn]: the mask matrix and the batch of perturbed images. *)
Definition perturbed_batch (self : ImageSampler) (present : list Z)
           (num_samples : Z) (g : nat -> bool)
  : result (tensor Z * tensor scalar) :=
  data ← randint g num_samples (n_features self);
  data ← set_columns present 1 data;
  imgs ← mapM (generate_image self) (rows data);
  samples ← stack imgs;
  batch ← permute [0; 3; 1; 2] samples;
  Ok (data, batch).

(** A client calling [sample] again and again on one sampler, as a
    search does; an exception ends that call only. *)
Definition request : Type := list Z * Z * (nat -> bool).

Fixpoint sample_seq (reqs : list request) (st : ImageSampler * calls)
  : list (result (tensor Z * tensor Z * tensor Z)) * (ImageSampler * calls) :=
  match reqs with
  | [] => ([], st)
  | (present, num_samples, g) :: reqs' =>
      let (r, st') := ImageSampler_sample present num_samples g st in
      let (rs, st'') := sample_seq reqs' st' in
      (r :: rs, st'')
  end.

(** [TabularSampler.sample] and [TextSampler.sample]: the body is [...],
    the call returns [None]. *)
Definition TabularSampler_sample (input : tensor scalar)
           (predict_fn : predictor) : M calls unit :=
  mret tt.

Definition TextSampler_sample (input : tensor scalar)
           (predict_fn : predictor) : M calls unit :=
  mret tt.

(** The three subclasses of [Sampler], and their objects. *)
Inductive sampler_class : Type :=
| TabularSampler
| ImageSampler_cls
| TextSampler.

Inductive sampler : Type :=
| TabularSampler_obj
| ImageSampler_obj (s : ImageSampler)
| TextSampler_obj.

(** The class attribute [type]. *)
Definition class_type (cls : sampler_class) : Tasktype :=
  match cls with
  | TabularSampler => TABULAR
  | ImageSampler_cls => IMAGE
  | TextSampler => TEXT
  end.

(** [Sampler.__init_subclass__]: [cls.subclasses[cls.type] = cls] *)
Definition init_subclass (cls : sampler_class)
           (subclasses : gmap Tasktype sampler_class)
  : gmap Tasktype sampler_class :=
  <[class_type cls := cls]> subclasses.

(** [Sampler.subclasses] once the module is loaded: the three class
    statements ran in source order. *)
Definition Sampler_subclasses : gmap Tasktype sampler_class :=
  init_subclass TextSampler
    (init_subclass ImageSampler_cls (init_subclass TabularSampler ∅)).

(** A keyword that names a parameter already bound by position. *)
Definition rebinds (kw : kwargs) : bool :=
  bool_decide
    (Exists (fun kv : string * Z => kv.1 ∈ ["self"; "input"; "predict_fn"]) kw).

(** [cls(input, predict_fn, **kwargs)].  [TabularSampler] and [TextSampler]
    define no [__init__], so [object] rejects the two arguments;
    [ImageSampler.__init__] takes any keyword it has not bound already. *)
Definition construct (cls : sampler_class) (input : tensor scalar)
           (predict_fn : predictor) (kw : kwargs) : M calls sampler :=
  match cls with
  | TabularSampler => raise TypeError
  | ImageSampler_cls =>
      if rebinds kw then raise TypeError
      else s ← ImageSampler_init input predict_fn kw;
           mret (ImageSampler_obj s)
  | TextSampler => raise TypeError
  end.

Definition Tasktype_repr (t : Tasktype) : string :=
  match t with
  | TABULAR => "Tasktype.TABULAR"
  | IMAGE => "Tasktype.IMAGE"
  | TEXT => "Tasktype.TEXT"
  end.

Definition bad_type (t : Tasktype) : exn :=
  ValueError ("Bad message type " ++ Tasktype_repr t)%string.

(** [Sampler.create] of anchor.py *)
Definition Sampler_create (subclasses : gmap Tasktype sampler_class)
           (type : Tasktype) (input : tensor scalar) (predict_fn : predictor)
           (kw : kwargs) : M calls sampler :=
  match subclasses !! type with
  | None => raise (bad_type type)
  | Some cls => construct cls input predict_fn kw
  end.

(** The frozen dataclass [Anchor]; [sampler] has [init=False] and no
    default, so a new object has no such attribute. *)
Record Anchor : Type := {
  tasktype : Tasktype;
  sampler_attr : option sampler;
  verbose : bool
}.

Definition Anchor_new (tasktype : Tasktype) (verbose : bool) : Anchor :=
  {| tasktype := tasktype; sampler_attr := None; verbose := verbose |}.

(** [__setattr__] as generated by [dataclass(frozen=True)]: on an object
    whose class is [Anchor] itself, every assignment is refused. *)
Definition Anchor_setattr (self : Anchor) (name : string) (value : sampler)
  : result unit :=
  Raise FrozenInstanceError.

(** [self.sampler] *)
Definition Anchor_get_sampler (self : Anchor) : result sampler :=
  match sampler_attr self with
  | Some s => Ok s
  | None => Raise AttributeError
  end.

(** The values bound to the parameters of [__greedy_anchor]. *)
Inductive pyval : Type :=
| PyAnchor (a : Anchor)
| PySampleMethod (s : sampler)
| PyFloat (q : Q)
| PyInt (z : Z).

Record greedy_frame : Type := {
  sample_fn : pyval;
  delta : pyval;
  epsilon : pyval;
  batch_size : pyval
}.

Definition delta_default : Q := 0.05%Q.
Definition epsilon_default : Q := 0.1%Q.
Definition batch_size_default : Z := 16%Z.

(** Binding of positional arguments to
    [(sample_fn, delta=0.05, epsilon=0.1, batch_size=16)]. *)
Definition greedy_anchor_bind (args : list pyval) : result greedy_frame :=
  match args with
  | [a] => Ok {| sample_fn := a; delta := PyFloat delta_default;
                 epsilon := PyFloat epsilon_default;
                 batch_size := PyInt batch_size_default |}
  | [a; d] => Ok {| sample_fn := a; delta := d;
                    epsilon := PyFloat epsilon_default;
                    batch_size := PyInt batch_size_default |}
  | [a; d; e] => Ok {| sample_fn := a; delta := d; epsilon := e;
                       batch_size := PyInt batch_size_default |}
  | [a; d; e; b] => Ok {| sample_fn := a; delta := d; epsilon := e;
                          batch_size := b |}
  | _ => Raise TypeError
  end.

(** [Anchor.__greedy_anchor]: the body is [...]. *)
Definition greedy_anchor (args : list pyval) : result unit :=
  _ ← greedy_anchor_bind args; Ok tt.

(** [Anchor.explain_instance].  The right-hand side of the first statement
    runs before the assignment; the bound-method call of the second passes
    [self] as first positional argument; the method has no [return]. *)
Definition Anchor_explain_instance (self : Anchor) (input : tensor scalar)
           (predict_fn : predictor) : M calls unit :=
  s ← Sampler_create Sampler_subclasses (tasktype self) input predict_fn [];
  _ ← lift (Anchor_setattr self "sampler" s);
  smp ← lift (Anchor_get_sampler self);
  exp ← lift (greedy_anchor [PyAnchor self; PySampleMethod smp]);
  mret tt.
End SamplerMethods.

(** ** src/ianchor/samplers/__init__.py

    The subclasses of this [Sampler] live in other modules of the package;
    here they are any type [C] of classes with a constructor [new]. *)
Module ianchor_samplers.
Section Factory.
Context `{Torch}.
Context {C O : Type}.
Variable new : C -> tensor scalar -> predictor -> kwargs -> M calls O.
Variable class_type : C -> Tasktype.

(** [Sampler.__init_subclass__] *)
Definition init_subclass (cls : C) (subclasses : gmap Tasktype C)
  : gmap Tasktype C :=
  <[class_type cls := cls]> subclasses.

(** [Sampler.create]: the constructor receives [**task_specific], the
    remaining keyword arguments are dropped. *)
Definition Sampler_create (subclasses : gmap Tasktype C)
           (type : Tasktype) (input : tensor scalar)
           (predict_fn : predictor) (task_specific : kwargs) (kw : kwargs)
  : M calls O :=
  match subclasses !! type with
  | None => raise (bad_type type)
  | Some cls => new cls input predict_fn task_specific
  end.
End Factory.
End ianchor_samplers.

(** ** Tensors as objects

    A torch tensor is an object: an attribute, a local variable and a
    returned value can name one and the same tensor, and an indexed
    assignment changes it for all of them.  To speak about what a method
    writes, the methods of [ImageSampler] are given once more over a store
    of objects, statement by statement.  A location holds a tensor or the
    attribute table of a sampler.  [clone], [randint], [zeros] and the
    arithmetic make new objects; an indexed assignment overwrites the object
    it is applied to.  The tensors that the code never assigns into and
    never stores ([samples], [preds], [preds_max], the argument and the
    result of the model) stay values, and the model itself is a function:
    asking it has no effect but the entry in the log of calls. *)

Section Objects.
Context `{Torch}.

Definition loc : Type := nat.

(** The attribute table of an [ImageSampler]; tensors are held by
    reference, [n_features] is a Python integer and [predict_fn] a
    function. *)
Record ImageSampler_attrs : Type := {
  label_ref : loc;
  segments_ref : loc;
  n_features_val : nat;
  sp_image_ref : loc;
  image_ref : loc;
  predict_fn_val : predictor
}.

(** [IndexTensor] is the zero-dimensional tensor that [torch.argmax]
    returns. *)
Inductive object : Type :=
| FloatTensor (t : tensor scalar)
| IntTensor (t : tensor Z)
| BoolTensor (t : tensor bool)
| IndexTensor (i : nat)
| SamplerObject (a : ImageSampler_attrs).

(** The store of objects and the log of model calls. *)
Definition mem : Type := (gmap loc object * calls)%type.

Definition as_float (o : object) : option (tensor scalar) :=
  match o with FloatTensor t => Some t | _ => None end.
Definition as_int (o : object) : option (tensor Z) :=
  match o with IntTensor t => Some t | _ => None end.
Definition as_bool (o : object) : option (tensor bool) :=
  match o with BoolTensor t => Some t | _ => None end.
Definition as_index (o : object) : option nat :=
  match o with IndexTensor i => Some i | _ => None end.
Definition as_sampler (o : object) : option ImageSampler_attrs :=
  match o with SamplerObject a => Some a | _ => None end.

(** A new object, at a location not in use. *)
Definition new (o : object) : M mem loc :=
  fun m => let l := fresh (dom m.1) in (Ok l, (<[l := o]> m.1, m.2)).

(** Reading an object as a tensor of some kind; an object of another kind
    does not support the operation the code applies next. *)
Definition get {A} (kind : object -> option A) (l : loc) : M mem A :=
  fun m =>
    (match m.1 !! l ≫= kind with Some x => Ok x | None => Raise TypeError end,
     m).

(** An assignment into the object at [l]: every name of the object sees the
    new contents. *)
Definition put (l : loc) (o : object) : M mem unit :=
  fun m => (Ok tt, (<[l := o]> m.1, m.2)).

(** [predict_fn(x)] *)
Definition ask (predict_fn : predictor) (x : tensor scalar)
  : M mem (tensor scalar) :=
  fun m => (Ok (predict_fn x), (m.1, m.2 ++ [x])).

(** [self.name] *)
Definition attr {A} (self : loc) (name : ImageSampler_attrs -> A) : M mem A :=
  a ← get as_sampler self; mret (name a).

(** [for x in xs: body] *)
Fixpoint for_in {X S} (xs : list X) (body : X -> M S unit) : M S unit :=
  match xs with
  | [] => mret tt
  | x :: xs' => _ ← body x; for_in xs' body
  end.

(** [[f(x) for x in xs]] *)
Fixpoint collect {X Y S} (f : X -> M S Y) (xs : list X) : M S (list Y) :=
  match xs with
  | [] => mret []
  | x :: xs' => y ← f x; ys ← collect f xs'; mret (y :: ys)
  end.

(** [ImageSampler(input, predict_fn, **kwargs)]: [__init__] on a new object.
    [input] is the caller's tensor; [self.image] is that same object,
    [self.sp_image] starts as a copy of it and is then assigned into, one
    segment at a time. *)
Definition ImageSampler_init_h (input : loc) (predict_fn : predictor)
           (kw : kwargs) : M mem loc :=
  t ← get as_float input;
  c ← lift (shape_at t 2);
  _ ← lift (py_assert (bool_decide (c = 3)));
  t ← get as_float input;
  x ← lift (instance_batch t);
  preds ← ask predict_fn x;
  row ← lift (index0 preds);
  l ← lift (argmax row);
  label ← new (IndexTensor l);
  t ← get as_float input;
  segments ← new (IntTensor (quickshift t));
  segs ← get as_int segments;
  let segment_features := unique segs in
  let n_features := length segment_features in
  t ← get as_float input;
  sp_image ← new (FloatTensor t);
  _ ← for_in segment_features (fun spixel =>
         segs ← get as_int segments;
         sp ← get as_float sp_image;
         sp' ← lift (fill_segment_mean segs sp spixel);
         put sp_image (FloatTensor sp'));
  new (SamplerObject {| label_ref := label; segments_ref := segments;
                        n_features_val := n_features;
                        sp_image_ref := sp_image; image_ref := input;
                        predict_fn_val := predict_fn |}).

(** A row of the mask matrix as the loop of [sample] yields it: a view of
    the matrix [data], read when it is used. *)
Definition get_row (feature_mask : loc * nat) : M mem (list Z) :=
  d ← get as_int feature_mask.1;
  match rows d !! feature_mask.2 with
  | Some row => mret row
  | None => raise IndexError
  end.

(** [ImageSampler.__generate_image]: [img] is a new object, a copy of
    [self.image]; [mask] is a new object too; the two assignments go into
    these. *)
Definition generate_image_h (self : loc) (feature_mask : loc * nat)
  : M mem loc :=
  image ← attr self image_ref;
  t ← get as_float image;
  img ← new (FloatTensor t);
  row ← get_row feature_mask;
  let zeros := where_zero row in
  segments ← attr self segments_ref;
  segs ← get as_int segments;
  mask ← new (BoolTensor (Tensor (shape segs) ((fun _ => false) <$> flat segs)));
  _ ← for_in zeros (fun z =>
         segments ← attr self segments_ref;
         segs ← get as_int segments;
         m ← get as_bool mask;
         put mask
           (BoolTensor
              (Tensor (shape m)
                 ((fun bs : bool * Z =>
                     if bool_decide (bs.2 = Z.of_nat z) then true else bs.1)
                    <$> zip (flat m) (flat segs)))));
  sp_image ← attr self sp_image_ref;
  sp ← get as_float sp_image;
  m ← get as_bool mask;
  _ ← lift (check_mask (shape m) sp);
  cur ← get as_float img;
  B ← lift (check_mask (shape m) cur);
  _ ← (if decide (shape sp = shape cur)
       then put img (FloatTensor
                       (Tensor (shape cur)
                          (masked_copy B (flat m) (flat sp) (flat cur))))
       else raise RuntimeError);
  mret img.

(** [ImageSampler.sample]: [data] is a new object and is assigned into;
    the first component returned is the object that [self.segments]
    names. *)
Definition ImageSampler_sample_h (self : loc) (present : list Z)
           (num_samples : Z) (g : nat -> bool) : M mem (loc * loc * loc) :=
  n_features ← attr self n_features_val;
  d0 ← lift (randint g num_samples n_features);
  data ← new (IntTensor d0);
  cur ← get as_int data;
  d1 ← lift (set_columns present 1 cur);
  _ ← put data (IntTensor d1);
  d ← get as_int data;
  imgs ← collect (fun i => generate_image_h self (data, i))
                 (seq 0 (length (rows d)));
  ts ← collect (get as_float) imgs;
  samples ← lift (stack ts);
  predict_fn ← attr self predict_fn_val;
  batch ← lift (permute [0; 3; 1; 2] samples);
  preds ← ask predict_fn batch;
  preds_max ← lift (argmax_axis1 preds);
  label ← attr self label_ref;
  l ← get as_index label;
  labels ← new (IntTensor (label_match l preds_max));
  segments ← attr self segments_ref;
  mret (segments, data, labels).

(** The object at [self] in the store [h] is the sampler [s]: its
    attribute table and the contents of the tensors it names. *)
Definition represents (self : loc) (h : gmap loc object) (s : ImageSampler)
  : Prop :=
  exists a,
    h !! self = Some (SamplerObject a) /\
    h !! label_ref a = Some (IndexTensor (label s)) /\
    h !! segments_ref a = Some (IntTensor (segments s)) /\
    n_features_val a = n_features s /\
    h !! sp_image_ref a = Some (FloatTensor (sp_image s)) /\
    h !! image_ref a = Some (FloatTensor (image s)) /\
    predict_fn_val a = predict_fn s.
End Objects.

(** ** Notions used to state further properties *)

Section Notions.
Context `{Torch}.

(** The feature mask holds 0 at the position given by the segment label
    [z]: [__generate_image] compares the labels with the positions of the
    zeros of the mask. *)
Definition feature_off (feature_mask : list Z) (z : Z) : bool :=
  bool_decide ((0 <= z)%Z /\ feature_mask !! Z.to_nat z = Some 0%Z).

(** Whether [__generate_image] replaces element [k] of the image: the pixel
    of [k] lies in a segment whose feature is off. *)
Definition replaced (self : ImageSampler) (feature_mask : list Z) (k : nat)
  : bool :=
  let B := numel (drop (length (shape (segments self))) (shape (image self))) in
  match flat (segments self) !! (k / B) with
  | Some z => feature_off feature_mask z
  | None => false
  end.

(** The values of channel [c] over the pixels of segment [z], in an image
    with [B] channels per pixel. *)
Definition segment_channel (B : nat) (segs : tensor Z) (img : tensor scalar)
           (z : Z) (c : nat) : list scalar :=
  omap (fun b : list scalar => b !! c)
       (masked_select B ((fun s => bool_decide (s = z)) <$> flat segs)
                      (flat img)).

(** [segments == z] *)
Definition label_mask (segs : tensor Z) (z : Z) : list bool :=
  (fun s => bool_decide (s = z)) <$> flat segs.

(** The state of the superpixel image after the labels [D] have had their
    round of the loop of [__init__]: their pixels hold the segment means of
    the input, the others are untouched. *)
Definition means_filled (B : nat) (segs : tensor Z) (input : tensor scalar)
           (D : list Z) (fl : list scalar) : Prop :=
  length fl = length (flat input) /\
  forall k x, flat input !! k = Some x ->
    fl !! k = Some (match flat segs !! (k / B) with
                    | Some z =>
                        if decide (z ∈ D)
                        then mean (segment_channel B segs input z (k mod B))
                        else x
                    | None => x
                    end).

(** What a call of [sample] returns when the model is asked about the one
    batch of perturbed images and nothing else, and the predicted classes are
    compared with the label the sampler holds. *)
Definition sample_outcome (self : ImageSampler) (req : request)
  : result (tensor Z * tensor Z * tensor Z) :=
  let '(present, num_samples, g) := req in
  match perturbed_batch self present num_samples g with
  | Raise e => Raise e
  | Ok (data, batch) =>
      preds_max ← argmax_axis1 (predict_fn self batch);
      Ok (segments self, data, label_match (label self) preds_max)
  end.

(** The batches of perturbed images of a sequence of requests, in order:
    one for each request whose batch can be built. *)
Definition sample_queries (self : ImageSampler) (reqs : list request)
  : list (tensor scalar) :=
  omap (fun req : request =>
          let '(present, num_samples, g) := req in
          match perturbed_batch self present num_samples g with
          | Ok (_, batch) => Some batch
          | Raise _ => None
          end) reqs.

(** [Anchor.beam_anchor]: declared without parameters, the body is [...]. *)
Definition beam_anchor (args : list pyval) : result unit :=
  match args with
  | [] => Ok tt
  | _ => Raise TypeError
  end.

(** A call through an object passes the object first. *)
Definition method_call (f : list pyval -> result unit) (self : Anchor)
           (args : list pyval) : result unit :=
  f (PyAnchor self :: args).
End Notions.

(** ** A concrete instance to run the code on

    Pixels and scores with integral values (standing for floating-point
    numbers: on the images below every mean taken is exact), and a
    segmentation that groups the pixels two by two in row-major order. *)
Module Example.
Definition Z_mean (l : list Z) : Z :=
  (foldr Z.add 0 l / Z.of_nat (length l))%Z.

Definition pair_segments (img : tensor Z) : tensor Z :=
  let sh := take 2 (shape img) in
  Tensor sh ((fun p => Z.of_nat (p / 2)) <$> seq 0 (numel sh)).

#[export] Instance torch_Z : Torch := {|
  scalar := Z;
  floating_point := true;
  scalar_ltb := Z.ltb;
  mean := Z_mean;
  quickshift := pair_segments
|}.

(** The same carrier read as 64-bit integers: [torch.mean] refuses it. *)
Definition torch_int64 : Torch := {|
  scalar := Z;
  floating_point := false;
  scalar_ltb := Z.ltb;
  mean := Z_mean;
  quickshift := pair_segments
|}.

(** A model with two classes: class 1 when the first element of a sample
    exceeds 4, class 0 otherwise; one row of scores per sample. *)
Definition threshold_model : predictor :=
  fun x =>
    let n := default 0 (shape x !! 0) in
    let per := numel (drop 1 (shape x)) in
    Tensor [n; 2]
      (i ← seq 0 n;
       match flat x !! (i * per) with
       | Some v => if (4 <? v)%Z then [0; 1]%Z else [1; 0]%Z
       | None => [1; 0]%Z
       end).

Definition img_1x4 : tensor Z :=
  Tensor [1; 4; 3] [5; 6; 7; 1; 2; 3; -8; -8; -8; -2; -4; -6]%Z.
Definition img_4ch : tensor Z := Tensor [1; 1; 4] [5; 6; 7; 8]%Z.
Definition img_2d : tensor Z := Tensor [2; 3] [1; 2; 3; 4; 5; 6]%Z.

(** Random bits: three set, three clear, and so on. *)
Definition coin (k : nat) : bool := Nat.even (k / 3).

(** The sampler [ImageSampler(img_1x4, threshold_model)]. *)
Definition sampler_1x4 : ImageSampler := {|
  label := 1;
  segments := Tensor [1; 4] [0; 0; 1; 1]%Z;
  n_features := 2;
  sp_image := Tensor [1; 4; 3] [3; 4; 5; 3; 4; 5; -5; -6; -7; -5; -6; -7]%Z;
  image := img_1x4;
  predict_fn := threshold_model
|}.

Definition batch_1x4 : tensor Z :=
  Tensor [1; 3; 1; 4] [5; 1; -8; -2; 6; 2; -8; -4; 7; 3; -8; -6]%Z.

(** The store after [ImageSampler(img_1x4, threshold_model)], the image
    being the object at location 0: the label, the segmentation, the
    superpixel image and the sampler are the objects 1 to 4, and the
    sampler's [image] is object 0 itself. *)
Definition store_1x4 : gmap loc object :=
  {[ 0 := FloatTensor img_1x4;
     1 := IndexTensor (label sampler_1x4);
     2 := IntTensor (segments sampler_1x4);
     3 := FloatTensor (sp_image sampler_1x4);
     4 := SamplerObject
            {| label_ref := 1; segments_ref := 2; n_features_val := 2;
               sp_image_ref := 3; image_ref := 0;
               predict_fn_val := threshold_model |} ]}.
End Example.

Import Example.

(** ** The constructor *)

Ltac unfold_M :=
  unfold mbind, M_bind, mret, M_ret, lift, raise, call_predict, this,
    with_calls in *; cbn beta iota in *.

Ltac case_result :=
  match goal with
  | H : context [match ?r with Ok _ => _ | Raise _ => _ end] |- _ =>
      let E := fresh "E" in destruct r eqn:E; cbn beta iota in H
  | |- context [match ?r with Ok _ => _ | Raise _ => _ end] =>
      let E := fresh "E" in destruct r eqn:E; cbn beta iota
  end.

Section InitFacts.
Context `{Torch}.

Lemma ImageSampler_init_ok input pf kw log s log' :
  ImageSampler_init input pf kw log = (Ok s, log') ->
  exists x row,
    shape input !! 2 = Some 3 /\
    instance_batch input = Ok x /\
    log' = log ++ [x] /\
    index0 (pf x) = Ok row /\
    argmax row = Ok (label s) /\
    segments s = quickshift input /\
    n_features s = length (unique (quickshift input)) /\
    for_each (unique (quickshift input))
             (fill_segment_mean (quickshift input)) input = Ok (sp_image s) /\
    image s = input /\
    predict_fn s = pf.
Proof.
  unfold ImageSampler_init, shape_at, py_assert.
  unfold_M. intros Hrun.
  destruct (shape input !! 2) as [c|] eqn:Ec; [|discriminate].
  destruct (bool_decide (c = 3)) eqn:Eb; [|discriminate].
  apply bool_decide_eq_true in Eb. subst c.
  repeat case_result; try discriminate.
  injection Hrun as <- <-. cbn.
  eexists _, _. repeat split; eauto.
Qed.

(** Exceptions a failed mask assignment can raise. *)
Lemma fill_segment_mean_raises segs sp spixel e :
  fill_segment_mean segs sp spixel = Raise e ->
  e = IndexError \/ (e = RuntimeError /\ floating_point = false).
Proof.
  unfold fill_segment_mean, check_mask. cbn.
  repeat case_decide; cbn; try (intros [= <-]; by left).
  destruct floating_point; [discriminate|].
  intros [= <-]. by right.
Qed.

Lemma for_each_raises {X S} (xs : list X) (body : S -> X -> result S) s e
      (P : exn -> Prop) :
  (forall s x e, body s x = Raise e -> P e) ->
  for_each xs body s = Raise e -> P e.
Proof.
  intros Hbody. revert s. induction xs as [|x xs IH]; intros s; cbn.
  - discriminate.
  - destruct (body s x) eqn:E; cbn; eauto.
    intros [= <-]. eauto.
Qed.

Lemma argmax_raises t e : argmax t = Raise e -> e = IndexError.
Proof. unfold argmax. destruct (argmax_list _); congruence. Qed.

Lemma index0_raises {A} (t : tensor A) e : index0 t = Raise e -> e = IndexError.
Proof. unfold index0. destruct (shape t) as [|[|n] sh]; congruence. Qed.

Lemma permute_raises {A} dims (t : tensor A) e :
  permute dims t = Raise e -> e = RuntimeError.
Proof. unfold permute. case_decide; congruence. Qed.

Lemma instance_batch_raises input e :
  instance_batch input = Raise e -> e = RuntimeError.
Proof.
  unfold instance_batch. destruct (permute _ _) eqn:E; cbn; [discriminate|].
  intros [= <-]. eauto using permute_raises.
Qed.

(** A failed construction: which exception, and what the model was asked. *)
Lemma ImageSampler_init_raise input pf kw log e log' :
  ImageSampler_init input pf kw log = (Raise e, log') ->
  (shape input !! 2 = None /\ e = IndexError /\ log' = log) \/
  (exists c, shape input !! 2 = Some c /\ c <> 3 /\
             e = AssertionError /\ log' = log) \/
  (shape input !! 2 = Some 3 /\ e = RuntimeError /\ log' = log /\
   instance_batch input = Raise RuntimeError) \/
  (exists x, shape input !! 2 = Some 3 /\ instance_batch input = Ok x /\
             log' = log ++ [x] /\ (e = IndexError \/ e = RuntimeError)).
Proof.
  unfold ImageSampler_init, shape_at, py_assert.
  unfold_M. intros Hrun.
  destruct (shape input !! 2) as [c|] eqn:Ec; [|left; naive_solver].
  right.
  destruct (bool_decide (c = 3)) eqn:Eb.
  2:{ apply bool_decide_eq_false in Eb. left. naive_solver. }
  apply bool_decide_eq_true in Eb. subst c. right.
  destruct (instance_batch input) as [x|e0] eqn:Ex.
  2:{ left. apply instance_batch_raises in Ex as Ee. naive_solver. }
  right. exists x.
  destruct (index0 (pf x)) as [row|e1] eqn:Erow.
  2:{ apply index0_raises in Erow. naive_solver. }
  destruct (argmax row) as [l|e2] eqn:El.
  2:{ apply argmax_raises in El. naive_solver. }
  destruct (for_each _ _ _) as [sp|e3] eqn:Esp; [discriminate|].
  apply for_each_raises
    with (P := fun e => e = IndexError \/
                        (e = RuntimeError /\ floating_point = false)) in Esp;
    [|intros ? ? ?; apply fill_segment_mean_raises].
  injection Hrun as <- <-. split_and!; [done..|].
  destruct Esp as [->|[-> _]]; auto.
Qed.
(** The model calls of the constructor, whatever its outcome: none when the
    instance fails the channel check or cannot be permuted, one otherwise,
    on the batch holding the instance. *)
Lemma ImageSampler_init_queries input pf kw log :
  (shape input !! 2 <> Some 3 ->
     (ImageSampler_init input pf kw log).2 = log) /\
  (forall e, instance_batch input = Raise e ->
     (ImageSampler_init input pf kw log).2 = log) /\
  (shape input !! 2 = Some 3 ->
   forall x, instance_batch input = Ok x ->
     (ImageSampler_init input pf kw log).2 = log ++ [x]).
Proof.
  destruct (ImageSampler_init input pf kw log) as [[s|e] log'] eqn:Erun; cbn.
  - apply ImageSampler_init_ok in Erun as (x & row & Hc & Hx & -> & _).
    split_and!; [done|congruence|]. intros _ x' Hx'. congruence.
  - destruct (ImageSampler_init_raise _ _ _ _ _ _ Erun)
      as [(Hc & _ & ->)|[(c & Hc & Hne & _ & ->)|[(Hc & _ & -> & Hx)|
          (x & Hc & Hx & -> & _)]]].
    + split_and!; [done|done|congruence].
    + split_and!; [done|done|congruence].
    + split_and!; [done|done|congruence].
    + split_and!; [done|congruence|]. intros _ x' Hx'. congruence.
Qed.
End InitFacts.

(** ** The sample method *)

Section SampleFacts.
Context `{Torch}.

(** [sample] in three cases: it fails before the model is asked, the
    model's answer cannot be reduced along axis 1, or it returns. *)
Lemma ImageSampler_sample_eq present n g s log :
  ImageSampler_sample present n g (s, log) =
    match perturbed_batch s present n g with
    | Raise e => (Raise e, (s, log))
    | Ok (data, batch) =>
        match argmax_axis1 (predict_fn s batch) with
        | Raise e => (Raise e, (s, log ++ [batch]))
        | Ok preds_max =>
            (Ok (segments s, data, label_match (label s) preds_max),
             (s, log ++ [batch]))
        end
    end.
Proof.
  unfold ImageSampler_sample, perturbed_batch. unfold_M. cbn.
  destruct (randint g n (n_features s)) as [d0|]; cbn; [|done].
  destruct (set_columns present 1 d0) as [d|]; cbn; [|done].
  destruct (mapM (generate_image s) (rows d)) as [imgs|]; cbn; [|done].
  destruct (stack imgs) as [smp|]; cbn; [|done].
  destruct (permute [0; 3; 1; 2] smp) as [b|]; cbn; [|done].
  destruct (argmax_axis1 (predict_fn s b)); done.
Qed.

Lemma mapM_result_ok {X Y} (f : X -> result Y) (l : list X) (ys : list Y) :
  mapM f l = Ok ys -> Forall2 (fun x y => f x = Ok y) l ys.
Proof.
  revert ys. induction l as [|x l IH]; intros ys; cbn.
  - intros [= <-]. constructor.
  - destruct (f x) as [y|] eqn:Ey; cbn; [|discriminate].
    destruct (mapM f l) as [k|] eqn:Ek; cbn; [|discriminate].
    intros [= <-]. constructor; auto.
Qed.

Lemma mapM_result_raise {X Y} (f : X -> result Y) (l : list X) e
      (P : exn -> Prop) :
  (forall x e, f x = Raise e -> P e) -> mapM f l = Raise e -> P e.
Proof.
  intros Hf. induction l as [|x l IH]; cbn; [discriminate|].
  destruct (f x) as [y|] eqn:Ey; cbn; [|intros [= <-]; eauto].
  destruct (mapM f l) as [k|] eqn:Ek; cbn; [discriminate|].
  intros [= <-]. auto.
Qed.
End SampleFacts.

(** ** The mask matrix *)

Section MaskFacts.

Lemma randint_ok g n F d :
  randint g n F = Ok d ->
  (0 <= n)%Z /\
  shape d = [Z.to_nat n; F] /\
  flat d = (fun k => Z.b2z (g k)) <$> seq 0 (Z.to_nat n * F).
Proof.
  unfold randint. case_decide; [discriminate|].
  intros [= <-]. cbn. split_and!; [lia|done..].
Qed.

Lemma randint_raises g n F e : randint g n F = Raise e -> e = RuntimeError.
Proof. unfold randint. case_decide; congruence. Qed.

Lemma norm_index_ok n p c :
  norm_index n p = Ok c ->
  c < n /\ (Z.of_nat c = p \/ Z.of_nat c = Z.of_nat n + p)%Z.
Proof.
  unfold norm_index. repeat case_decide; intros [= <-]; lia.
Qed.

Lemma norm_index_raises n p e : norm_index n p = Raise e -> e = IndexError.
Proof. unfold norm_index. repeat case_decide; congruence. Qed.

Lemma set_columns_ok present v d d' :
  set_columns present v d = Ok d' ->
  exists n f,
    shape d = [n; f] /\ shape d' = shape d /\
    ((n = 0 /\ d' = d) \/
     (n <> 0 /\ exists cols,
        mapM (norm_index f) present = Ok cols /\
        flat d' = imap (fun k x => if decide (k mod f ∈ cols) then v else x)
                       (flat d))).
Proof.
  unfold set_columns.
  destruct (shape d) as [|n [|f [|? ?]]] eqn:Esh; try discriminate.
  case_decide as Hn.
  - intros [= <-]. exists n, f. rewrite Esh. split_and!; [done..|by left].
  - destruct (mapM (norm_index f) present) as [cols|] eqn:Ecols; cbn;
      [|discriminate].
    intros [= <-]. cbn. exists n, f. split_and!; [done..|]. right. eauto.
Qed.

Lemma set_columns_raises present v d e :
  set_columns present v d = Raise e -> e = IndexError.
Proof.
  unfold set_columns.
  destruct (shape d) as [|n [|f [|? ?]]]; try congruence.
  case_decide; [discriminate|].
  destruct (mapM (norm_index f) present) as [cols|] eqn:Ecols; cbn;
    [discriminate|].
  intros [= <-].
  eapply (mapM_result_raise _ _ _ (fun e => e = IndexError)); [|exact Ecols].
  intros ? ?. apply norm_index_raises.
Qed.

(** The mask handed back by [sample]: its shape, its entries and its
    forced columns. *)
Lemma mask_matrix_spec g n F present d0 d :
  randint g n F = Ok d0 ->
  set_columns present 1 d0 = Ok d ->
  shape d = [Z.to_nat n; F] /\
  length (flat d) = Z.to_nat n * F /\
  Forall (fun v => v = 0 \/ v = 1)%Z (flat d) /\
  ((0 < n)%Z ->
   forall p, p ∈ present ->
     exists c, norm_index F p = Ok c /\
       forall i, i < Z.to_nat n -> flat d !! (i * F + c) = Some 1%Z) /\
  (forall i c, i < Z.to_nat n -> c < F ->
     (forall p, p ∈ present -> norm_index F p <> Ok c) ->
     flat d !! (i * F + c) = Some (Z.b2z (g (i * F + c)))).
Proof.
  intros Hr Hs.
  apply randint_ok in Hr as (Hn & Hsh0 & Hfl0).
  apply set_columns_ok in Hs
    as (n' & f & Hsh & Hsh' & [[-> ->] | (Hn' & cols & Hcols & Hfl)]).
  { rewrite Hsh0 in Hsh. injection Hsh as Hz <-.
    rewrite Hsh0, Hfl0, Hz. cbn. split_and!; [done|done|constructor|lia|lia]. }
  rewrite Hsh0 in Hsh. injection Hsh as <- <-.
  apply mapM_result_ok in Hcols.
  split_and!.
  - congruence.
  - rewrite Hfl, length_imap, Hfl0, length_fmap, length_seq. done.
  - rewrite Hfl, Hfl0. apply Forall_lookup. intros k x.
    rewrite list_lookup_imap, list_lookup_fmap.
    destruct (seq 0 _ !! k) as [k'|]; cbn; [|discriminate].
    intros [= <-]. case_decide; [auto|]. destruct (g k'); auto.
  - intros _ p Hp.
    apply list_elem_of_lookup in Hp as [j Hj].
    destruct (Forall2_lookup_l _ _ _ _ _ Hcols Hj) as (c & Hc & Hpc).
    exists c. split; [done|]. intros i Hi.
    apply norm_index_ok in Hpc as [Hlt _].
    rewrite Hfl, list_lookup_imap, Hfl0, list_lookup_fmap.
    rewrite lookup_seq_lt by nia. cbn.
    rewrite decide_True; [done|].
    replace ((i * F + c) mod F) with c.
    + apply list_elem_of_lookup. eauto.
    + rewrite Nat.add_comm, Nat.Div0.mod_add. symmetry.
      apply Nat.mod_small. done.
  - intros i c Hi Hc Hnot.
    rewrite Hfl, list_lookup_imap, Hfl0, list_lookup_fmap.
    rewrite lookup_seq_lt by nia. cbn.
    rewrite decide_False; [done|].
    replace ((i * F + c) mod F) with c.
    + intros Hin. apply list_elem_of_lookup in Hin as [j Hj].
      destruct (Forall2_lookup_r _ _ _ _ _ Hcols Hj) as (p & Hp & Hpc).
      apply (Hnot p); [|done]. apply list_elem_of_lookup. eauto.
    + rewrite Nat.add_comm, Nat.Div0.mod_add. symmetry.
      apply Nat.mod_small. done.
Qed.
End MaskFacts.

(** ** The label-match vector *)

Section LabelFacts.
Context `{Torch}.

Lemma label_match_binary l pm :
  Forall (fun v => v = 0 \/ v = 1)%Z (flat (label_match l pm)).
Proof.
  unfold label_match. cbn. apply Forall_fmap, Forall_forall.
  intros c _. cbn. destruct (bool_decide _); auto.
Qed.

Lemma label_match_lookup l pm i c :
  flat pm !! i = Some c ->
  flat (label_match l pm) !! i = Some (if decide (c = l) then 1 else 0)%Z.
Proof.
  intros Hc. unfold label_match. cbn. rewrite list_lookup_fmap, Hc. cbn.
  case_decide.
  - rewrite bool_decide_eq_true_2; done.
  - rewrite bool_decide_eq_false_2; done.
Qed.

Lemma omap_lookup_seq {X} (l : list X) (f : nat -> nat) a b len :
  (forall j, f j = a + j) ->
  a + b + len <= length l ->
  omap (fun j => l !! f j) (seq b len) = take len (drop (a + b) l).
Proof.
  intros Hf. revert b. induction len as [|len IH]; intros b Hlen; cbn.
  - by rewrite take_0.
  - destruct (lookup_lt_is_Some_2 l (a + b)) as [x Hx]; [lia|].
    rewrite Hf, Hx. rewrite (drop_S _ _ _ Hx). cbn. f_equal.
    rewrite IH by lia. by replace (a + S b) with (S (a + b)) by lia.
Qed.

(** For a score matrix, the lane of sample [i] is row [i]. *)
Lemma lane_matrix k t i :
  (i + 1) * k <= length (flat t) ->
  lane k 1 t i 0 = take k (drop (i * k) (flat t)).
Proof.
  intros Hlen. unfold lane.
  rewrite (omap_lookup_seq _ _ (i * k) 0 k); [|intros; lia|lia].
  by rewrite Nat.add_0_r.
Qed.

Lemma rows_matrix {X} (t : tensor X) n k :
  shape t = [n; k] ->
  rows t = (fun i => take k (drop (i * k) (flat t))) <$> seq 0 n.
Proof.
  intros Hsh. unfold rows. rewrite Hsh. cbn. by rewrite Nat.mul_1_r.
Qed.

Lemma argmax_list_is_Some l : l <> [] -> is_Some (argmax_list l).
Proof. destruct l; [done|]. cbn. eauto. Qed.

Lemma bind_singleton {X Y} (f : X -> list Y) (g : X -> Y) (l : list X) :
  Forall (fun x => f x = [g x]) l -> l ≫= f = g <$> l.
Proof.
  induction 1 as [|x l Hx _ IH]; cbn; [done|]. by rewrite Hx, IH.
Qed.

(** [argmax(preds, axis=1)] on a well-formed score matrix: one class per
    row, the first maximum of that row. *)
Lemma argmax_axis1_matrix t n k pm :
  shape t = [n; k] ->
  tensor_wf t ->
  argmax_axis1 t = Ok pm ->
  shape pm = [n] /\ length (flat pm) = n /\
  forall i row, rows t !! i = Some row ->
    exists c, argmax_list row = Some c /\ flat pm !! i = Some c.
Proof.
  unfold tensor_wf, argmax_axis1. intros Hsh Hwf. rewrite Hsh in *.
  cbn in Hwf. rewrite Nat.mul_1_r in Hwf.
  case_decide as Hk; [discriminate|]. intros [= <-].
  cbn [shape flat numel foldr].
  set (row i := take k (drop (i * k) (flat t))).
  set (g i := default 0 (argmax_list (row i))).
  assert (Hrow : forall i, i < n ->
            lane k 1 t i 0 = row i /\ argmax_list (row i) = Some (g i)).
  { intros i Hi.
    assert (Hlen : (i + 1) * k <= length (flat t)) by nia.
    split; [by apply lane_matrix|].
    destruct (argmax_list_is_Some (row i)) as [c Hc].
    - intros Hnil. apply (f_equal length) in Hnil. subst row. cbn in Hnil.
      rewrite length_take, length_drop in Hnil. cbn in Hnil. nia.
    - subst g. cbn. by rewrite Hc. }
  assert (Hflat : (seq 0 n ≫=
             (fun i => match argmax_list (lane k 1 t i 0) with
                       | Some y => [y]
                       | None => []
                       end))
          = g <$> seq 0 n).
  { apply bind_singleton, Forall_forall. intros i Hi.
    apply elem_of_seq in Hi. destruct (Hrow i) as [Hl Ha]; [lia|].
    by rewrite Hl, Ha. }
  rewrite Hflat. split_and!; [done|by rewrite length_fmap, length_seq|].
  intros i r Hr. rewrite (rows_matrix _ _ _ Hsh), list_lookup_fmap in Hr.
  destruct (seq 0 n !! i) as [i'|] eqn:Ei; [|discriminate].
  apply lookup_seq in Ei as [-> Hi]. cbn in Hr. injection Hr as <-.
  exists (g i). destruct (Hrow i) as [_ Ha]; [lia|]. split; [exact Ha|].
  rewrite list_lookup_fmap, lookup_seq_lt by done. done.
Qed.
End LabelFacts.

(** ** The batch of perturbed images *)

Section BatchFacts.
Context `{Torch}.

Lemma generate_image_shape s row img :
  generate_image s row = Ok img -> shape img = shape (image s).
Proof.
  unfold generate_image, check_mask. cbn.
  repeat case_decide; cbn; try discriminate.
  all: repeat case_decide; try discriminate.
  all: by intros [= <-].
Qed.

Lemma generate_image_ok s row :
  sampler_wf s -> is_ok (generate_image s row) = true.
Proof.
  intros (_ & Hsp & Hseg). unfold generate_image, check_mask. cbn.
  rewrite Hsp. rewrite decide_True by done. cbn.
  rewrite decide_True by done. done.
Qed.

Lemma mapM_result_total {X Y} (f : X -> result Y) (l : list X) :
  (forall x, is_ok (f x) = true) -> is_ok (mapM f l) = true.
Proof.
  intros Hf. induction l as [|x l IH]; cbn; [done|].
  specialize (Hf x). destruct (f x); [|done]. cbn.
  destruct (mapM f l); done.
Qed.

Lemma mapM_result_total_on {X Y} (f : X -> result Y) (l : list X) :
  Forall (fun x => is_ok (f x) = true) l -> is_ok (mapM f l) = true.
Proof.
  induction 1 as [|x l Hx _ IH]; [done|].
  change (is_ok (y ← f x; k ← mapM f l; mret (y :: k)) = true).
  destruct (f x); [|done]. destruct (mapM f l); done.
Qed.

Lemma length_rows {X} (t : tensor X) n sh :
  shape t = n :: sh -> length (rows t) = n.
Proof.
  intros Hsh. unfold rows. rewrite Hsh. by rewrite length_fmap, length_seq.
Qed.

Lemma stack_ok {X} (ts : list (tensor X)) sh :
  ts <> [] -> Forall (fun t => shape t = sh) ts ->
  exists smp, stack ts = Ok smp /\ shape smp = length ts :: sh.
Proof.
  intros Hne Hall. destruct ts as [|t0 ts]; [done|]. unfold stack.
  assert (Hsh0 : shape t0 = sh) by (by inversion Hall).
  rewrite (proj2 (forallb_forall _ _)).
  - eexists. split; [done|]. cbn. by rewrite Hsh0.
  - intros t Ht. apply bool_decide_eq_true_2.
    rewrite Forall_forall in Hall. rewrite Hsh0.
    apply Hall, list_elem_of_In, Ht.
Qed.

Lemma stack_inv {X} (ts : list (tensor X)) smp :
  stack ts = Ok smp ->
  exists t0, head ts = Some t0 /\ shape smp = length ts :: shape t0.
Proof.
  unfold stack. destruct ts as [|t0 ts]; [discriminate|].
  destruct (forallb _ _); [|discriminate]. intros [= <-]. eauto.
Qed.

Lemma stack_raises {X} (ts : list (tensor X)) e :
  stack ts = Raise e -> e = RuntimeError.
Proof.
  unfold stack. destruct ts as [|t0 ts]; [congruence|].
  destruct (forallb _ _); congruence.
Qed.

(** The images that make up a batch: one per requested sample, each the
    perturbation of the original under one row of the mask. *)
Lemma perturbed_batch_inv s present n g data batch :
  perturbed_batch s present n g = Ok (data, batch) ->
  exists d0 imgs samples,
    randint g n (n_features s) = Ok d0 /\
    set_columns present 1 d0 = Ok data /\
    Forall2 (fun row img => generate_image s row = Ok img) (rows data) imgs /\
    length imgs = Z.to_nat n /\
    (0 < n)%Z /\
    stack imgs = Ok samples /\
    permute [0; 3; 1; 2] samples = Ok batch /\
    shape batch !! 0 = Some (Z.to_nat n).
Proof.
  unfold perturbed_batch.
  destruct (randint g n (n_features s)) as [d0|] eqn:Er; cbn; [|discriminate].
  destruct (set_columns present 1 d0) as [d|] eqn:Es; cbn; [|discriminate].
  destruct (mapM (generate_image s) (rows d)) as [imgs|] eqn:Em; cbn;
    [|discriminate].
  destruct (stack imgs) as [smp|] eqn:Est; cbn; [|discriminate].
  destruct (permute [0; 3; 1; 2] smp) as [b|] eqn:Ep; cbn; [|discriminate].
  intros [= <- <-].
  destruct (mask_matrix_spec _ _ _ _ _ _ Er Es) as (Hsh & _).
  apply mapM_result_ok in Em as HF.
  assert (Hlen : length imgs = Z.to_nat n).
  { rewrite <- (Forall2_length _ _ _ HF). by apply (length_rows _ _ _ Hsh). }
  apply stack_inv in Est as Hst. destruct Hst as (t0 & Ht0 & Hshs).
  exists d0, imgs, smp. split_and!; try done.
  - apply randint_ok in Er as [Hn _].
    destruct imgs; [discriminate|]. cbn in Hlen. lia.
  - unfold permute in Ep. case_decide; [|discriminate].
    injection Ep as <-. cbn. rewrite Hshs. cbn. by rewrite Hlen.
Qed.

(** With well-formed attributes, a positive sample count and indices in
    range, the batch is built. *)
Lemma perturbed_batch_ok s present n g :
  sampler_wf s ->
  (0 < n)%Z ->
  Forall (fun p => - Z.of_nat (n_features s) <= p < Z.of_nat (n_features s))%Z
         present ->
  is_ok (perturbed_batch s present n g) = true.
Proof.
  intros Hwf Hn Hpres. unfold perturbed_batch.
  destruct (randint g n (n_features s)) as [d0|] eqn:Er.
  2:{ unfold randint in Er. case_decide; [lia|discriminate]. }
  cbn.
  assert (Hcols : is_ok (mapM (norm_index (n_features s)) present) = true).
  { apply mapM_result_total_on.
    eapply Forall_impl; [exact Hpres|]. intros p Hp. cbn in Hp.
    unfold norm_index. repeat case_decide; done || lia. }
  apply randint_ok in Er as Hr. destruct Hr as (_ & Hsh0 & Hfl0).
  destruct (set_columns present 1 d0) as [d|] eqn:Es.
  2:{ unfold set_columns in Es. rewrite Hsh0 in Es.
      case_decide; [discriminate|].
      destruct (mapM _ present); [discriminate|done]. }
  cbn.
  apply set_columns_ok in Es as (n' & f & Hsh & Hsh' & _).
  assert (Hm := mapM_result_total (generate_image s) (rows d)
                  (fun row => generate_image_ok s row Hwf)).
  destruct (mapM (generate_image s) (rows d)) as [imgs|] eqn:Em; [|done].
  cbn. apply mapM_result_ok in Em as HF.
  assert (Hlen : length imgs = Z.to_nat n).
  { rewrite <- (Forall2_length _ _ _ HF).
    apply (length_rows _ _ [n_features s]). congruence. }
  destruct (stack_ok imgs (shape (image s))) as (smp & -> & Hshs).
  - destruct imgs; [cbn in Hlen; lia|done].
  - apply Forall_forall. intros img Hin.
    apply list_elem_of_lookup in Hin as [j Hj].
    destruct (Forall2_lookup_r _ _ _ _ _ HF Hj) as (row & _ & Hg).
    by apply generate_image_shape in Hg.
  - cbn. unfold permute. rewrite Hshs. destruct Hwf as (Hrank & _).
    cbn. rewrite Hrank. done.
Qed.
End BatchFacts.

Section WellFormed.
Context `{Torch}.

Lemma fill_segment_mean_shape segs sp spixel sp' :
  fill_segment_mean segs sp spixel = Ok sp' -> shape sp' = shape sp.
Proof.
  unfold fill_segment_mean, check_mask. cbn.
  repeat (case_decide; cbn); try discriminate.
  destruct floating_point; [|discriminate]. by intros [= <-].
Qed.

Lemma for_each_invariant {X S} (xs : list X) (body : S -> X -> result S)
      (P : S -> Prop) s s' :
  (forall s x s', P s -> body s x = Ok s' -> P s') ->
  P s -> for_each xs body s = Ok s' -> P s'.
Proof.
  intros Hbody. revert s. induction xs as [|x xs IH]; intros s Hs; cbn.
  - by intros [= <-].
  - destruct (body s x) as [s1|] eqn:E; cbn; [|discriminate]. eauto.
Qed.

(** On a constructed sampler the superpixel image has the shape of the
    image, whatever the segmentation: [__generate_image] copies between
    tensors of one shape. *)
Lemma ImageSampler_init_shapes input pf kw log s log' :
  ImageSampler_init input pf kw log = (Ok s, log') ->
  length (shape (image s)) = 3 /\ shape (sp_image s) = shape (image s).
Proof.
  intros Hinit.
  apply ImageSampler_init_ok in Hinit
    as (x & row & _ & Hx & _ & _ & _ & Hseg & _ & Hsp & Him & _).
  rewrite Him. split.
  - unfold instance_batch, permute in Hx. case_decide; [done|discriminate].
  - eapply (for_each_invariant _ _ (fun sp => shape sp = shape input));
      [|done|exact Hsp].
    intros sp0 z sp1 Hsp0 Hfill. apply fill_segment_mean_shape in Hfill.
    congruence.
Qed.

(** A constructed sampler has well-formed attributes as soon as the
    segmentation has the image's leading dimensions. *)
Lemma ImageSampler_init_wf input pf kw log s log' :
  ImageSampler_init input pf kw log = (Ok s, log') ->
  shape (quickshift input) =
    take (length (shape (quickshift input))) (shape input) ->
  sampler_wf s.
Proof.
  intros Hinit Hq.
  apply ImageSampler_init_ok in Hinit
    as (x & row & _ & Hx & _ & _ & _ & Hseg & _ & Hsp & Him & _).
  unfold sampler_wf. rewrite Him, Hseg. split_and!; [|
    |done].
  - unfold instance_batch, permute in Hx. case_decide; [done|discriminate].
  - eapply (for_each_invariant _ _ (fun sp => shape sp = shape input));
      [|done|exact Hsp].
    intros sp0 z sp1 Hsp0 Hfill. apply fill_segment_mean_shape in Hfill.
    congruence.
Qed.
End WellFormed.

(** ** Running the code on the concrete instance *)

Example init_1x4 :
  ImageSampler_init img_1x4 threshold_model [] [] = (Ok sampler_1x4, [batch_1x4]).
Proof. reflexivity. Qed.

Example init_h_1x4 :
  ImageSampler_init_h 0 threshold_model [] ({[ 0 := FloatTensor img_1x4 ]}, [])
    = (Ok 4, (store_1x4, [batch_1x4])).
Proof. vm_compute. reflexivity. Qed.

Example sample_1x4 :
  ImageSampler_sample [] 3 coin (sampler_1x4, [batch_1x4]) =
    (Ok (Tensor [1; 4] [0; 0; 1; 1]%Z,
         Tensor [3; 2] [1; 1; 1; 0; 0; 0]%Z,
         Tensor [3] [1; 1; 0]%Z),
     (sampler_1x4,
      [batch_1x4;
       Tensor [3; 3; 1; 4]
         [5; 1; -8; -2; 6; 2; -8; -4; 7; 3; -8; -6;
          5; 1; -5; -5; 6; 2; -6; -6; 7; 3; -7; -7;
          3; 3; -5; -5; 4; 4; -6; -6; 5; 5; -7; -7]%Z])).
Proof. reflexivity. Qed.

(** ** Validation at construction *)

(** C5 (counterexample): an image with four channels makes the constructor
    fail with [AssertionError], the exception of the [assert] statement, and
    not with an exception named InvalidInputError. *)
Lemma init_four_channels_is_assertion_error :
  exists e,
    ImageSampler_init img_4ch threshold_model [] [] = (Raise e, []) /\
    exn_name e <> "InvalidInputError".
Proof. exists AssertionError. split; [reflexivity|discriminate]. Qed.

(** C5 (amended): when the third dimension of the instance is not 3, the
    [ImageSampler] constructor fails with [AssertionError] at once: the
    model has not been asked anything, nothing is tried again, and no
    exception of the code carries the name InvalidInputError. *)
Theorem init_rejects_channel_count `{Torch} input pf kw log c
        (Hc : shape input !! 2 = Some c) (Hne : c <> 3) :
  ImageSampler_init input pf kw log = (Raise AssertionError, log) /\
  forall e, exn_name e <> "InvalidInputError".
Proof.
  split.
  - unfold ImageSampler_init, shape_at, py_assert. unfold_M.
    rewrite Hc. by rewrite bool_decide_eq_false_2.
  - intros []; discriminate.
Qed.

Lemma init_rejects_channel_count_witness :
  shape img_4ch !! 2 = Some 4 /\ 4 <> 3 /\
  ImageSampler_init img_4ch threshold_model [] [batch_1x4]
    = (Raise AssertionError, [batch_1x4]).
Proof.
  split; [reflexivity|]. split; [lia|].
  apply (@init_rejects_channel_count torch_Z img_4ch threshold_model []
           [batch_1x4] 4);
    [reflexivity|lia].
Defined.

(** ** Defaults of the search *)

(** C7 (counterexample): the declared defaults of [delta] and [epsilon] are
    not 0.1 and 0.15. *)
Lemma greedy_anchor_defaults_differ :
  ~ (delta_default == 0.1)%Q /\ ~ (epsilon_default == 0.15)%Q.
Proof. split; intros Heq; vm_compute in Heq; discriminate. Qed.

(** C7 (amended): a call of [__greedy_anchor] that passes the sample
    function alone runs with delta = 0.05, epsilon = 0.1 and
    batch_size = 16. *)
Theorem greedy_anchor_defaults `{Torch} (f : pyval) :
  greedy_anchor_bind [f] =
    Ok {| sample_fn := f; delta := PyFloat 0.05%Q; epsilon := PyFloat 0.1%Q;
          batch_size := PyInt 16%Z |}.
Proof. reflexivity. Qed.

(** The call [self.__greedy_anchor(self.sampler.sample)] of
    [explain_instance] binds [self] to [sample_fn] and the sample method to
    [delta]: the function is declared without a [self] parameter. *)
Lemma greedy_anchor_method_call `{Torch} (self : Anchor) (smp : sampler) :
  greedy_anchor_bind [PyAnchor self; PySampleMethod smp] =
    Ok {| sample_fn := PyAnchor self; delta := PySampleMethod smp;
          epsilon := PyFloat epsilon_default;
          batch_size := PyInt batch_size_default |}.
Proof. reflexivity. Qed.

(** ** The entry point *)

(** C1 (failing input): on a 1 x 4 image with three channels,
    [explain_instance] asks the model for the original label and then raises
    [FrozenInstanceError]; no explanation is returned. *)
Theorem explain_instance_image :
  Anchor_explain_instance (Anchor_new IMAGE false) img_1x4 threshold_model []
    = (Raise FrozenInstanceError, [batch_1x4]).
Proof. reflexivity. Qed.

(** C8 (counterexample): through [explain_instance] the model is queried:
    the exception comes after one call of the predict function. *)
Lemma explain_instance_queries_model :
  exists e log,
    Anchor_explain_instance (Anchor_new IMAGE false) img_1x4 threshold_model []
      = (Raise e, log) /\
    length log = 1.
Proof. exists FrozenInstanceError, [batch_1x4]. split; reflexivity. Qed.

(** C8 (amended): [explain_instance] always raises and never gets to call
    [sample].  For the task types TABULAR and TEXT it raises [TypeError] and
    the model is not asked anything.  For IMAGE the constructor runs first,
    and the model calls made are the constructor's: none when the instance
    fails the channel check or cannot be permuted, exactly one otherwise, on
    the batch holding the original instance.  When the constructor fails,
    its exception is the one raised; when it succeeds, the assignment to the
    frozen field raises [FrozenInstanceError]. *)
Theorem explain_instance_always_raises `{Torch} (self : Anchor) input pf log :
  exists e log',
    Anchor_explain_instance self input pf log = (Raise e, log') /\
    (tasktype self <> IMAGE -> e = TypeError /\ log' = log) /\
    (tasktype self = IMAGE ->
       log' = (ImageSampler_init input pf [] log).2 /\
       (shape input !! 2 <> Some 3 -> log' = log) /\
       (forall e0, instance_batch input = Raise e0 -> log' = log) /\
       (shape input !! 2 = Some 3 ->
        forall x, instance_batch input = Ok x -> log' = log ++ [x]) /\
       (forall s log1, ImageSampler_init input pf [] log = (Ok s, log1) ->
          e = FrozenInstanceError) /\
       (forall e1 log1, ImageSampler_init input pf [] log = (Raise e1, log1) ->
          e = e1)).
Proof.
  unfold Anchor_explain_instance, Sampler_create, Sampler_subclasses,
    init_subclass, Anchor_setattr.
  destruct self as [[] smp v]; cbn [tasktype class_type].
  - (* TABULAR *)
    exists TypeError, log. split_and!; [reflexivity|done|done].
  - (* IMAGE *)
    change (_ !! IMAGE) with (Some ImageSampler_cls).
    unfold construct. change (rebinds []) with false. unfold_M.
    destruct (ImageSampler_init_queries input pf [] log) as (Hq0 & Hq1 & Hq2).
    destruct (ImageSampler_init input pf [] log) as [[s|e] log1] eqn:Einit;
      cbn [snd] in *.
    + exists FrozenInstanceError, log1.
      split_and!; [reflexivity|done|]. intros _.
      split_and!; [done..| |discriminate]. done.
    + exists e, log1. split_and!; [reflexivity|done|]. intros _.
      split_and!; [done..|discriminate|]. by intros e1 log2 [= <- _].
  - (* TEXT *)
    exists TypeError, log. split_and!; [reflexivity|done|done].
Qed.

Lemma explain_instance_always_raises_witness :
  exists e log',
    Anchor_explain_instance (Anchor_new IMAGE true) img_1x4 threshold_model []
      = (Raise e, log') /\ e = FrozenInstanceError /\ log' = [] ++ [batch_1x4].
Proof.
  destruct (@explain_instance_always_raises torch_Z
              (Anchor_new IMAGE true) img_1x4 threshold_model [])
    as (e & log' & Hrun & _ & Himage).
  destruct (Himage eq_refl) as (_ & _ & _ & Hlog & Hok & _).
  exists e, log'. split; [exact Hrun|]. split.
  - exact (Hok _ _ init_1x4).
  - exact (Hlog eq_refl _ eq_refl).
Defined.

(** On an image of integers the constructor asks the model for the label
    and then fails in [torch.mean]; [explain_instance] ends with that
    exception, after the one model call. *)
Lemma explain_instance_integer_image :
  @ImageSampler_init torch_int64 img_1x4 threshold_model [] []
    = (Raise RuntimeError, [batch_1x4]) /\
  @Anchor_explain_instance torch_int64 (@Anchor_new torch_int64 IMAGE false)
     img_1x4 threshold_model []
    = (Raise RuntimeError, [batch_1x4]).
Proof. split; reflexivity. Qed.

(** ** The factories *)

Section FactoryFacts.
Context `{Torch}.

Lemma ImageSampler_init_no_ValueError input pf kw log e log' :
  ImageSampler_init input pf kw log = (Raise e, log') ->
  forall msg, e <> ValueError msg.
Proof.
  intros Hrun msg.
  destruct (ImageSampler_init_raise _ _ _ _ _ _ Hrun)
    as [(_ & -> & _)|[(c & _ & _ & -> & _)|[(_ & -> & _)|
        (x & _ & _ & _ & [-> | ->])]]]; discriminate.
Qed.

(** The constructors of anchor.py raise no [ValueError] of their own. *)
Lemma construct_no_ValueError cls input pf kw log e log' :
  construct cls input pf kw log = (Raise e, log') ->
  forall msg, e <> ValueError msg.
Proof.
  destruct cls; cbn; unfold_M.
  - by intros [= <- <-].
  - destruct (rebinds kw); [by intros [= <- <-]|].
    destruct (ImageSampler_init input pf kw log) as [[s|e0] l] eqn:Einit;
      [discriminate|].
    intros [= <- <-]. eauto using ImageSampler_init_no_ValueError.
  - by intros [= <- <-].
Qed.

(** Every task type has its subclass registered once anchor.py is loaded. *)
Lemma Sampler_subclasses_lookup (cls : sampler_class) :
  Sampler_subclasses !! class_type cls = Some cls.
Proof. by destruct cls. Qed.

Lemma Sampler_subclasses_total (type : Tasktype) :
  is_Some (Sampler_subclasses !! type).
Proof. destruct type; by eexists. Qed.

(** Registration of a subclass, and of a later one with the same type. *)
Lemma init_subclass_lookup {C} (class_type : C -> Tasktype) cls
      (subclasses : gmap Tasktype C) type :
  ianchor_samplers.init_subclass class_type cls subclasses !! type =
    if decide (class_type cls = type) then Some cls else subclasses !! type.
Proof. unfold ianchor_samplers.init_subclass. apply lookup_insert. Qed.

(** The unimplemented samplers: [sample] returns [None] and asks the model
    nothing. *)
Lemma stub_samples_make_no_call input pf log :
  TabularSampler_sample input pf log = (Ok tt, log) /\
  TextSampler_sample input pf log = (Ok tt, log).
Proof. done. Qed.
End FactoryFacts.

(** C9 (failing input): TABULAR is registered in anchor.py, yet [create]
    returns no instance for it.  [create] passes [input] and [predict_fn] to
    the registered class, as it does for every sampler, but [TabularSampler]
    defines no [__init__] that would take them, and the call ends in
    [TypeError]. *)
Theorem create_tabular_returns_no_instance :
  Sampler_subclasses !! TABULAR = Some TabularSampler /\
  Sampler_create Sampler_subclasses TABULAR img_1x4 threshold_model [] []
    = (Raise TypeError, []).
Proof. split; reflexivity. Qed.

(** The dispatch of the two factories: [create] raises [ValueError] exactly
    when the task type has no registered subclass.  Otherwise it calls the
    constructor of the registered subclass and its outcome is that call's
    outcome: the new instance, or the exception the constructor raised.  The
    constructors themselves raise no [ValueError], so on registries with the
    same task types the two factories take the same decision. *)
Lemma create_dispatch `{Torch} {C O : Type}
        (new : C -> tensor scalar -> predictor -> kwargs -> M calls O)
        (Hnew : forall cls input pf kw log e log',
            new cls input pf kw log = (Raise e, log') ->
            forall msg, e <> ValueError msg)
        (subclasses : gmap Tasktype sampler_class)
        (subclasses' : gmap Tasktype C)
        type input pf task_specific kw log :
  let run := Sampler_create subclasses type input pf kw log in
  let run' := ianchor_samplers.Sampler_create new subclasses' type input pf
                task_specific kw log in
  ((exists msg log', run = (Raise (ValueError msg), log'))
   <-> subclasses !! type = None) /\
  (forall cls, subclasses !! type = Some cls ->
               run = construct cls input pf kw log) /\
  ((exists msg log', run' = (Raise (ValueError msg), log'))
   <-> subclasses' !! type = None) /\
  (forall cls, subclasses' !! type = Some cls ->
               run' = new cls input pf task_specific log) /\
  ((subclasses !! type = None <-> subclasses' !! type = None) ->
   ((exists msg log', run = (Raise (ValueError msg), log'))
    <-> (exists msg log', run' = (Raise (ValueError msg), log')))).
Proof.
  intros run run'.
  assert (Hrun : (exists msg log', run = (Raise (ValueError msg), log'))
                 <-> subclasses !! type = None).
  { subst run. unfold Sampler_create.
    destruct (subclasses !! type) as [cls|] eqn:E.
    - split; [|discriminate]. intros (msg & log' & Hr).
      by eapply construct_no_ValueError in Hr.
    - split; [done|]. intros _. unfold raise, bad_type. eauto. }
  assert (Hrun' : (exists msg log', run' = (Raise (ValueError msg), log'))
                  <-> subclasses' !! type = None).
  { subst run'. unfold ianchor_samplers.Sampler_create.
    destruct (subclasses' !! type) as [cls|] eqn:E.
    - split; [|discriminate]. intros (msg & log' & Hr).
      by eapply Hnew in Hr.
    - split; [done|]. intros _. unfold raise, bad_type. eauto. }
  split_and!; [exact Hrun| |exact Hrun'| |].
  - intros cls E. subst run. unfold Sampler_create. by rewrite E.
  - intros cls E. subst run'. unfold ianchor_samplers.Sampler_create.
    by rewrite E.
  - intros Hdom. by rewrite Hrun, Hrun'.
Qed.

Lemma create_dispatch_witness :
  Sampler_create Sampler_subclasses IMAGE img_1x4 threshold_model [] []
    = construct ImageSampler_cls img_1x4 threshold_model [] [] /\
  ianchor_samplers.Sampler_create construct (delete IMAGE Sampler_subclasses)
    IMAGE img_1x4 threshold_model [] [] []
    = (Raise (ValueError "Bad message type Tasktype.IMAGE"), []).
Proof.
  destruct (@create_dispatch torch_Z sampler_class sampler construct
              (@construct_no_ValueError torch_Z)
              Sampler_subclasses (delete IMAGE Sampler_subclasses)
              IMAGE img_1x4 threshold_model [] [] [])
    as (_ & Hsome & _ & _ & _).
  split; [apply Hsome; reflexivity|reflexivity].
Defined.

(** ** Effects of sample on the sampler *)

Section ObjectFacts.
Context `{Torch}.

Lemma run_bind {S A B} (c : M S A) (k : A -> M S B) m :
  (c ≫= k) m =
    match c m with
    | (Ok a, m') => k a m'
    | (Raise e, m') => (Raise e, m')
    end.
Proof. reflexivity. Qed.

Lemma run_new o h q :
  exists l, new o (h, q) = (Ok l, (<[l := o]> h, q)) /\ h !! l = None.
Proof.
  exists (fresh (dom h)). split; [done|].
  apply (not_elem_of_dom_1 h), is_fresh.
Qed.

Lemma run_new_at o (m : mem) :
  exists l, new o m = (Ok l, (<[l := o]> m.1, m.2)) /\ m.1 !! l = None.
Proof. destruct m as [h q]. apply run_new. Qed.

Lemma run_get {A} (kind : object -> option A) l h q o x :
  h !! l = Some o -> kind o = Some x -> get kind l (h, q) = (Ok x, (h, q)).
Proof. intros Hl Hk. unfold get. cbn. by rewrite Hl; cbn; rewrite Hk. Qed.

Lemma run_attr {A} self (name : ImageSampler_attrs -> A) h q a :
  h !! self = Some (SamplerObject a) ->
  attr self name (h, q) = (Ok (name a), (h, q)).
Proof.
  intros Hself. unfold attr. rewrite run_bind.
  by rewrite (run_get as_sampler _ _ _ _ a Hself eq_refl).
Qed.

Lemma mask_loop self a segs zeros : forall h q mask sh m,
  h !! self = Some (SamplerObject a) ->
  h !! segments_ref a = Some (IntTensor segs) ->
  h !! mask = Some (BoolTensor (Tensor sh m)) ->
  mask <> self -> mask <> segments_ref a ->
  for_in zeros (fun z =>
         segments ← attr self segments_ref;
         segs ← get as_int segments;
         m ← get as_bool mask;
         put mask
           (BoolTensor
              (Tensor (shape m)
                 ((fun bs : bool * Z =>
                     if bool_decide (bs.2 = Z.of_nat z) then true else bs.1)
                    <$> zip (flat m) (flat segs))))) (h, q)
  = (Ok tt,
     (<[mask := BoolTensor
         (Tensor sh
            (fold_left
               (fun (m : list bool) (z : nat) =>
                  (fun bs : bool * Z =>
                     if bool_decide (bs.2 = Z.of_nat z) then true else bs.1)
                    <$> zip m (flat segs))
               zeros m))]> h, q)).
Proof.
  induction zeros as [|z zeros IH]; intros h q mask sh m Hself Hsegs Hmask Hn1 Hn2.
  - cbn [for_in fold_left]. by rewrite insert_id.
  - cbn [for_in fold_left]. rewrite run_bind.
    rewrite run_bind, (run_attr _ _ _ _ _ Hself).
    rewrite run_bind, (run_get as_int _ _ _ _ _ Hsegs eq_refl).
    rewrite run_bind, (run_get as_bool _ _ _ _ _ Hmask eq_refl).
    unfold put at 1. cbn [fst snd shape flat].
    erewrite (IH _ _ mask sh).
    + by rewrite insert_insert_eq.
    + by rewrite lookup_insert_ne.
    + by rewrite lookup_insert_ne.
    + by rewrite lookup_insert_eq.
    + done.
    + done.
Qed.


Ltac hlookup :=
  repeat first [rewrite lookup_insert_eq | rewrite lookup_insert_ne by congruence];
  first [eassumption | reflexivity].

Lemma generate_image_h_spec self h q s dl i d row :
  represents self h s ->
  h !! dl = Some (IntTensor d) ->
  rows d !! i = Some row ->
  exists r h',
    generate_image_h self (dl, i) (h, q) = (r, (h', q)) /\
    h ⊆ h' /\
    match generate_image s row with
    | Ok img =>
        exists l, r = Ok l /\ h' !! l = Some (FloatTensor img) /\ h !! l = None
    | Raise e => r = Raise e
    end.
Proof.
  intros (a & Hself & Hlab & Hseg & Hnf & Hsp & Him & Hpf) Hdl Hrow.
  unfold generate_image_h, generate_image.
  rewrite run_bind, (run_attr _ _ _ _ _ Hself).
  rewrite run_bind, (run_get as_float _ _ _ _ _ Him eq_refl).
  rewrite run_bind.
  destruct (run_new (FloatTensor (image s)) h q) as (img & -> & Himg).
  rewrite run_bind. unfold get_row. cbn [fst snd].
  rewrite run_bind; erewrite (run_get as_int _ _ _ _ d); [|hlookup|reflexivity].
  rewrite Hrow. cbn [mret M_ret].
  rewrite run_bind; erewrite (run_attr _ _ _ _ a); [|hlookup].
  rewrite run_bind; erewrite (run_get as_int _ _ _ _ (segments s)); [|hlookup|reflexivity].
  rewrite run_bind.
  match goal with |- context [new ?o (?h1, q)] =>
    destruct (run_new o h1 q) as (mask & -> & Hmask) end.
  apply lookup_insert_None in Hmask as [Hmask Hne].
  rewrite run_bind.
  erewrite (mask_loop self a (segments s) _ _ q mask); [| hlookup..| congruence | congruence].
  rewrite insert_insert_eq.
  rewrite run_bind; erewrite (run_attr _ _ _ _ a); [|hlookup].
  rewrite run_bind; erewrite (run_get as_float _ _ _ _ (sp_image s)); [|hlookup|reflexivity].
  rewrite run_bind; erewrite (run_get as_bool _ _ _ _ _); [|hlookup|reflexivity].
  cbn [shape flat].
  rewrite run_bind. unfold lift at 1.
  assert (Hsub : forall o1 o2, h ⊆ <[mask := o1]> (<[img := o2]> h)).
  { intros o1 o2. apply insert_subseteq_r; [done|]. by apply insert_subseteq. }
  destruct (check_mask (shape (segments s)) (sp_image s)) as [B0|e0]; cbn [mbind result_bind].
  2:{ eexists _, _. split; [reflexivity|]. split; [apply Hsub|done]. }
  rewrite run_bind; erewrite (run_get as_float _ _ _ _ (image s)); [|hlookup|reflexivity].
  rewrite run_bind. unfold lift at 1.
  destruct (check_mask (shape (segments s)) (image s)) as [B|e1]; cbn [mbind result_bind].
  2:{ eexists _, _. split; [reflexivity|]. split; [apply Hsub|done]. }
  rewrite run_bind.
  destruct (decide (shape (sp_image s) = shape (image s))) as [Heq|Hneq].
  - unfold put, mret, M_ret. cbn [fst snd].
    eexists _, _. split; [reflexivity|]. split.
    + apply insert_subseteq_r; [done|]. apply Hsub.
    + exists img. split; [done|]. split; [|done]. by rewrite lookup_insert_eq.
  - unfold raise. eexists _, _. split; [reflexivity|]. split; [apply Hsub|done].
Qed.


Lemma represents_weaken self h h' s :
  represents self h s -> h ⊆ h' -> represents self h' s.
Proof.
  intros (a & Hself & Hlab & Hseg & Hnf & Hsp & Him & Hpf) Hsub.
  exists a. split_and!; try done; by eapply lookup_weaken.
Qed.

Lemma collect_generate_image self s dl d h0 :
  represents self h0 s ->
  forall rws k h q,
    h0 ⊆ h ->
    h !! dl = Some (IntTensor d) ->
    (forall j row, rws !! j = Some row -> rows d !! (k + j) = Some row) ->
    exists r h',
      collect (fun i => generate_image_h self (dl, i)) (seq k (length rws))
              (h, q) = (r, (h', q)) /\
      h ⊆ h' /\
      match mapM (generate_image s) rws with
      | Ok imgs =>
          exists ls, r = Ok ls /\
            Forall2 (fun l img => h' !! l = Some (FloatTensor img)) ls imgs
      | Raise e => r = Raise e
      end.
Proof.
  intros Hrep. induction rws as [|row rws IH]; intros k h q Hsub Hdl Hrows.
  - cbn. eexists _, _. split; [reflexivity|]. split; [done|].
    exists []. split; [done|constructor].
  - cbn [length seq collect mapM].
    destruct (generate_image_h_spec self h q s dl k d row)
      as (r1 & h1 & Hrun & Hsub1 & Hres).
    { by eapply represents_weaken. }
    { done. }
    { specialize (Hrows 0 row eq_refl). by rewrite Nat.add_0_r in Hrows. }
    rewrite run_bind, Hrun.
    destruct (generate_image s row) as [img|e]; cbn [mbind result_bind].
    2:{ subst r1. eexists _, _. split; [reflexivity|]. by split. }
    destruct Hres as (l & -> & Hl & _).
    destruct (IH (S k) h1 q) as (r2 & h2 & Hrun2 & Hsub2 & Hres2).
    { by etrans. }
    { by eapply lookup_weaken. }
    { intros j row' Hj. specialize (Hrows (S j) row' Hj).
      by rewrite Nat.add_succ_comm. }
    rewrite run_bind, Hrun2.
    destruct (mapM (generate_image s) rws) as [imgs|e]; cbn [mbind result_bind fmap].
    2:{ subst r2. eexists _, _. split; [reflexivity|]. split; [by etrans|done]. }
    destruct Hres2 as (ls & -> & HF).
    eexists _, _. split; [reflexivity|]. split; [by etrans|].
    exists (l :: ls). split; [done|]. constructor; [|done].
    by eapply lookup_weaken.
Qed.

Lemma collect_get_float ls imgs (h : gmap loc object) q :
  Forall2 (fun l img => h !! l = Some (FloatTensor img)) ls imgs ->
  collect (get as_float) ls (h, q) = (Ok imgs, (h, q)).
Proof.
  induction 1 as [|l img ls imgs Hl HF IH]; [done|].
  cbn [collect]. rewrite run_bind.
  erewrite (run_get as_float _ _ _ _ img); [|done|done].
  by rewrite run_bind, IH.
Qed.


Lemma ImageSampler_sample_h_spec self h q s present n g :
  represents self h s ->
  exists r h',
    ImageSampler_sample_h self present n g (h, q)
      = (r, (h', (ImageSampler_sample present n g (s, q)).2.2)) /\
    h ⊆ h' /\
    match (ImageSampler_sample present n g (s, q)).1 with
    | Ok (segs, data, labels) =>
        exists a ld ll,
          h !! self = Some (SamplerObject a) /\
          r = Ok (segments_ref a, ld, ll) /\
          h' !! ld = Some (IntTensor data) /\
          h' !! ll = Some (IntTensor labels) /\
          h !! ld = None /\ h !! ll = None /\ ld <> ll
    | Raise e => r = Raise e
    end.
Proof.
  intros Hrep.
  destruct (Hrep) as (a & Hself & Hlab & Hseg & Hnf & Hsp & Him & Hpf).
  rewrite ImageSampler_sample_eq. unfold perturbed_batch.
  unfold ImageSampler_sample_h.
  rewrite run_bind; erewrite (run_attr _ _ _ _ a); [|hlookup].
  rewrite Hnf. rewrite run_bind. unfold lift at 1.
  destruct (randint g n (n_features s)) as [d0|e]; cbn [mbind result_bind].
  2:{ eexists _, _. split; [reflexivity|]. by split. }
  rewrite run_bind.
  destruct (run_new (IntTensor d0) h q) as (dl & -> & Hdl).
  rewrite run_bind; erewrite (run_get as_int _ _ _ _ d0); [|hlookup|reflexivity].
  rewrite run_bind. unfold lift at 1.
  destruct (set_columns present 1 d0) as [d1|e]; cbn [mbind result_bind].
  2:{ eexists _, _. split; [reflexivity|]. split; [by apply insert_subseteq|done]. }
  rewrite run_bind. unfold put at 1. cbn [fst snd]. rewrite insert_insert_eq.
  rewrite run_bind; erewrite (run_get as_int _ _ _ _ d1); [|hlookup|reflexivity].
  assert (Hsub1 : h ⊆ <[dl := IntTensor d1]> h) by (by apply insert_subseteq).
  destruct (collect_generate_image self s dl d1 h Hrep (rows d1) 0
              (<[dl := IntTensor d1]> h) q Hsub1)
    as (r1 & h1 & Hrun1 & Hsub2 & Hres1).
  { hlookup. }
  { done. }
  rewrite run_bind, Hrun1.
  destruct (mapM (generate_image s) (rows d1)) as [imgs|e]; cbn [mbind result_bind].
  2:{ subst r1. eexists _, _. split; [reflexivity|]. split; [by etrans|done]. }
  destruct Hres1 as (ls & -> & HF).
  rewrite run_bind, (collect_get_float _ _ _ _ HF).
  rewrite run_bind. unfold lift at 1.
  destruct (stack imgs) as [smp|e]; cbn [mbind result_bind].
  2:{ eexists _, _. split; [reflexivity|]. split; [by etrans|done]. }
  assert (Hsub : h ⊆ h1) by (by etrans).
  rewrite run_bind; erewrite (run_attr _ _ _ _ a); [|by eapply lookup_weaken].
  rewrite Hpf. rewrite run_bind. unfold lift at 1.
  destruct (permute [0; 3; 1; 2] smp) as [b|e]; cbn [mbind result_bind].
  2:{ eexists _, _. split; [reflexivity|]. by split. }
  rewrite run_bind. unfold ask at 1. cbn [fst snd].
  rewrite run_bind. unfold lift at 1.
  destruct (argmax_axis1 (predict_fn s b)) as [pm|e]; cbn [fst snd].
  2:{ eexists _, _. split; [reflexivity|]. by split. }
  rewrite run_bind; erewrite (run_attr _ _ _ _ a); [|by eapply lookup_weaken].
  rewrite run_bind; erewrite (run_get as_index _ _ _ _ (label s));
    [|by eapply lookup_weaken|reflexivity].
  rewrite run_bind.
  match goal with |- context [new ?o (?hh, ?qq)] =>
    destruct (run_new o hh qq) as (ll & -> & Hll) end.
  rewrite run_bind; erewrite (run_attr _ _ _ _ a);
    [|rewrite lookup_insert_ne; [by eapply lookup_weaken|]].
  2:{ intros ->. eapply lookup_weaken in Hself; [|exact Hsub]. congruence. }
  eexists _, _. split; [reflexivity|]. split.
  { apply insert_subseteq_r; [|done].
    destruct (h !! ll) eqn:E; [|done].
    eapply lookup_weaken in E; [|exact Hsub]. congruence. }
  assert (Hdl1 : h1 !! dl = Some (IntTensor d1)).
  { eapply lookup_weaken; [|exact Hsub2]. by rewrite lookup_insert_eq. }
  exists a, dl, ll. split_and!; try done.
  - rewrite lookup_insert_ne; [done|]. intros ->. congruence.
  - by rewrite lookup_insert_eq.
  - destruct (h !! ll) eqn:E; [|done].
    eapply lookup_weaken in E; [|exact Hsub]. congruence.
  - intros ->. congruence.
Qed.


Lemma fill_loop segments sp_image segs labels : forall (m : mem) sp,
  m.1 !! segments = Some (IntTensor segs) ->
  m.1 !! sp_image = Some (FloatTensor sp) ->
  sp_image <> segments ->
  exists sp'',
    for_in labels (fun spixel =>
         segs ← get as_int segments;
         sp ← get as_float sp_image;
         sp' ← lift (fill_segment_mean segs sp spixel);
         put sp_image (FloatTensor sp')) m
    = (match for_each labels (fill_segment_mean segs) sp with
       | Ok _ => Ok tt
       | Raise e => Raise e
       end, (<[sp_image := FloatTensor sp'']> m.1, m.2)) /\
    forall sp', for_each labels (fill_segment_mean segs) sp = Ok sp' ->
                sp'' = sp'.
Proof.
  induction labels as [|z labels IH]; intros [h q] sp Hsegs Hsp Hne;
    cbn [fst snd] in *.
  - exists sp. cbn [for_in for_each]. rewrite insert_id by done.
    split; [done|]. by intros sp' [= <-].
  - cbn [for_in for_each]. rewrite run_bind.
    rewrite run_bind; erewrite (run_get as_int _ _ _ _ segs); [|done|done].
    rewrite run_bind; erewrite (run_get as_float _ _ _ _ sp); [|done|done].
    rewrite run_bind. unfold lift at 1.
    destruct (fill_segment_mean segs sp z) as [sp1|e]; cbn [mbind result_bind].
    2:{ exists sp. rewrite insert_id by done. split; [done|discriminate]. }
    unfold put at 1. cbn [fst snd].
    destruct (IH (<[sp_image := FloatTensor sp1]> h, q) sp1)
      as (sp'' & Hrun & Hres); cbn [fst snd] in *.
    { by rewrite lookup_insert_ne. }
    { by rewrite lookup_insert_eq. }
    { done. }
    exists sp''. rewrite Hrun, insert_insert_eq. done.
Qed.

Lemma ImageSampler_init_eq input pf kw q :
  ImageSampler_init input pf kw q =
    match shape_at input 2 with
    | Raise e => (Raise e, q)
    | Ok c =>
    match py_assert (bool_decide (c = 3)) with
    | Raise e => (Raise e, q)
    | Ok _ =>
    match instance_batch input with
    | Raise e => (Raise e, q)
    | Ok x =>
    match index0 (pf x) with
    | Raise e => (Raise e, q ++ [x])
    | Ok row =>
    match argmax row with
    | Raise e => (Raise e, q ++ [x])
    | Ok l =>
    match for_each (unique (quickshift input))
                   (fill_segment_mean (quickshift input)) input with
    | Raise e => (Raise e, q ++ [x])
    | Ok sp =>
        (Ok {| label := l; segments := quickshift input;
               n_features := length (unique (quickshift input));
               sp_image := sp; image := input; predict_fn := pf |},
         q ++ [x])
    end end end end end end.
Proof.
  unfold ImageSampler_init. unfold_M.
  destruct (shape_at input 2); [|done].
  destruct (py_assert _); [|done].
  destruct (instance_batch input); [|done].
  destruct (index0 _); [|done].
  destruct (argmax _); [|done].
  by destruct (for_each _ _ _).
Qed.

Lemma ImageSampler_init_h_spec li input pf kw (h : gmap loc object) q :
  h !! li = Some (FloatTensor input) ->
  exists r h',
    ImageSampler_init_h li pf kw (h, q)
      = (r, (h', (ImageSampler_init input pf kw q).2)) /\
    h ⊆ h' /\
    match (ImageSampler_init input pf kw q).1 with
    | Ok s =>
        exists self a,
          r = Ok self /\
          represents self h' s /\
          h' !! self = Some (SamplerObject a) /\
          image_ref a = li /\
          h !! self = None /\ h !! label_ref a = None /\
          h !! segments_ref a = None /\ h !! sp_image_ref a = None
    | Raise e => r = Raise e
    end.
Proof.
  intros Hli.
  rewrite ImageSampler_init_eq. unfold ImageSampler_init_h.
  rewrite run_bind; erewrite (run_get as_float _ _ _ _ input); [|done|done].
  rewrite run_bind. unfold lift at 1.
  destruct (shape_at input 2) as [c|e]; cbn [mbind result_bind fst snd].
  2:{ eexists _, _. split; [reflexivity|]. by split. }
  rewrite run_bind. unfold lift at 1.
  destruct (py_assert (bool_decide (c = 3))) as [[]|e];
    cbn [mbind result_bind fst snd].
  2:{ eexists _, _. split; [reflexivity|]. by split. }
  rewrite run_bind; erewrite (run_get as_float _ _ _ _ input); [|done|done].
  rewrite run_bind. unfold lift at 1.
  destruct (instance_batch input) as [x|e]; cbn [mbind result_bind fst snd].
  2:{ eexists _, _. split; [reflexivity|]. by split. }
  rewrite run_bind. unfold ask at 1. cbn [fst snd].
  rewrite run_bind. unfold lift at 1.
  destruct (index0 (pf x)) as [row|e]; cbn [mbind result_bind fst snd].
  2:{ eexists _, _. split; [reflexivity|]. by split. }
  rewrite run_bind. unfold lift at 1.
  destruct (argmax row) as [l|e]; cbn [mbind result_bind fst snd].
  2:{ eexists _, _. split; [reflexivity|]. by split. }
  rewrite run_bind.
  match goal with |- context [new ?o ?m] =>
    destruct (run_new_at o m) as (label & -> & Hlabel) end.
  cbn [fst snd] in *.
  rewrite run_bind; erewrite (run_get as_float _ _ _ _ input); [|hlookup|done].
  rewrite run_bind.
  match goal with |- context [new ?o ?m] =>
    destruct (run_new_at o m) as (segments & -> & Hsegments) end.
  cbn [fst snd] in *.
  apply lookup_insert_None in Hsegments as [Hsegments Hne1].
  rewrite run_bind;
    erewrite (run_get as_int _ _ _ _ (quickshift input)); [|hlookup|done].
  rewrite run_bind; erewrite (run_get as_float _ _ _ _ input); [|hlookup|done].
  rewrite run_bind.
  match goal with |- context [new ?o ?m] =>
    destruct (run_new_at o m) as (sp_image & -> & Hsp_image) end.
  cbn [fst snd] in *.
  apply lookup_insert_None in Hsp_image as [Hsp_image Hne2].
  apply lookup_insert_None in Hsp_image as [Hsp_image Hne3].
  rewrite run_bind.
  match goal with |- context [for_in _ _ ?m] =>
    destruct (fill_loop segments sp_image (quickshift input)
                (unique (quickshift input)) m input)
      as (sp'' & Hloop & Hres) end; cbn [fst snd] in *.
  { hlookup. }
  { hlookup. }
  { done. }
  rewrite Hloop. clear Hloop. cbn [fst snd].
  rewrite insert_insert_eq.
  assert (Hsub : forall o1 o2 o3,
             h ⊆ <[sp_image := o1]> (<[segments := o2]> (<[label := o3]> h))).
  { intros. do 2 (apply insert_subseteq_r; [done|]). by apply insert_subseteq. }
  destruct (for_each (unique (quickshift input))
              (fill_segment_mean (quickshift input)) input) as [sp|e];
    cbn [mbind result_bind fst snd].
  2:{ eexists _, _. split; [reflexivity|]. split; [apply Hsub|done]. }
  rewrite (Hres sp eq_refl).
  match goal with |- context [new ?o ?m] =>
    destruct (run_new_at o m) as (self & -> & Hself) end.
  cbn [fst snd] in *.
  apply lookup_insert_None in Hself as [Hself Hne4].
  apply lookup_insert_None in Hself as [Hself Hne5].
  apply lookup_insert_None in Hself as [Hself Hne6].
  eexists _, _. split; [reflexivity|]. split.
  { apply insert_subseteq_r; [done|]. apply Hsub. }
  eexists self, _. split; [done|]. split.
  { eexists. split; [by rewrite lookup_insert_eq|]. cbn.
    split_and!; try done; hlookup. }
  split; [by rewrite lookup_insert_eq|]. cbn. done.
Qed.

(** A sampler made by the constructor is in the store as the value-level
    constructor describes it. *)
Lemma ImageSampler_init_h_represents li input pf kw (h0 h : gmap loc object)
      q0 q self :
  h0 !! li = Some (FloatTensor input) ->
  ImageSampler_init_h li pf kw (h0, q0) = (Ok self, (h, q)) ->
  exists s,
    ImageSampler_init input pf kw q0 = (Ok s, q) /\
    represents self h s /\ h0 ⊆ h /\ h0 !! self = None.
Proof.
  intros Hli Hrun.
  destruct (ImageSampler_init_h_spec li input pf kw h0 q0 Hli)
    as (r & h' & Hrun' & Hsub & Hres).
  rewrite Hrun in Hrun'. injection Hrun' as <- <- ->.
  destruct (ImageSampler_init input pf kw q0) as [[s|e] q1]; cbn in *;
    [|discriminate].
  destruct Hres as (self' & a & [= <-] & Hrep & _ & _ & Hself & _).
  by exists s.
Qed.
End ObjectFacts.

(** C10: [ImageSampler.sample] leaves the sampler as it was, whether it
    returns or raises.  The attribute table of [self] is the one from before
    the call and every object that existed before the call has the contents
    it had, among them the tensors that [label], [segments], [sp_image] and
    [image] name: what the call assigns into are objects it has made.  The
    first component returned is the very object that [self.segments] names,
    and it holds the segmentation that [__init__] computed from the
    instance; the other two components are new objects. *)
Theorem sample_leaves_sampler_unchanged `{Torch} self h q s present n g
        (Hrep : represents self h s) :
  exists r h' q',
    ImageSampler_sample_h self present n g (h, q) = (r, (h', q')) /\
    h ⊆ h' /\
    (forall a, h !! self = Some (SamplerObject a) ->
       h' !! self = Some (SamplerObject a) /\
       h' !! label_ref a = h !! label_ref a /\
       h' !! segments_ref a = h !! segments_ref a /\
       h' !! sp_image_ref a = h !! sp_image_ref a /\
       h' !! image_ref a = h !! image_ref a) /\
    represents self h' s /\
    (forall segs data labels, r = Ok (segs, data, labels) ->
       (exists a, h !! self = Some (SamplerObject a) /\ segs = segments_ref a) /\
       h' !! segs = Some (IntTensor (segments s)) /\
       (forall input pf kw q0 q1,
           ImageSampler_init input pf kw q0 = (Ok s, q1) ->
           h' !! segs = Some (IntTensor (quickshift input))) /\
       h !! data = None /\ h !! labels = None).
Proof.
  destruct (ImageSampler_sample_h_spec self h q s present n g Hrep)
    as (r & h' & Hrun & Hsub & Hres).
  exists r, h', (ImageSampler_sample present n g (s, q)).2.2.
  split; [exact Hrun|]. split; [exact Hsub|].
  assert (Hrep' : represents self h' s) by (by eapply represents_weaken).
  destruct Hrep as (a & Hself & Hlab & Hseg & Hnf & Hsp & Him & Hpf).
  split_and!.
  - intros a' Ha'. assert (a' = a) as -> by congruence.
    rewrite Hlab, Hseg, Hsp, Him.
    split_and!; by eapply lookup_weaken.
  - exact Hrep'.
  - intros segs data labels ->.
    destruct (ImageSampler_sample present n g (s, q)).1
      as [[[segs0 data0] labels0]|e]; [|discriminate].
    destruct Hres as (a' & ld & ll & Ha' & [= -> -> ->] & _ & _ & Hld & Hll & _).
    assert (a' = a) as -> by congruence.
    assert (Hsegs' : h' !! segments_ref a = Some (IntTensor (segments s)))
      by (by eapply lookup_weaken).
    split_and!; [by exists a|done| |done|done].
    intros input pf kw q0 q1 Hinit.
    apply ImageSampler_init_ok in Hinit
      as (x & row & _ & _ & _ & _ & _ & Hq & _).
    by rewrite <- Hq.
Qed.

Lemma sample_leaves_sampler_unchanged_witness :
  exists r h' q',
    ImageSampler_sample_h 4 [] 3 coin (store_1x4, [batch_1x4])
      = (r, (h', q')) /\
    store_1x4 ⊆ h' /\
    h' !! 0 = Some (FloatTensor img_1x4) /\
    h' !! 2 = Some (IntTensor (quickshift img_1x4)).
Proof.
  destruct (@sample_leaves_sampler_unchanged torch_Z 4 store_1x4 [batch_1x4]
              sampler_1x4 [] 3%Z coin)
    as (r & h' & q' & Hrun & Hsub & Hattrs & _).
  - eexists. split; [reflexivity|]. repeat split.
  - exists r, h', q'. split; [exact Hrun|]. split; [exact Hsub|].
    destruct (Hattrs _ eq_refl) as (_ & _ & Hsegs & _ & Him).
    split; [exact Him|exact Hsegs].
Defined.

(** ** Model calls made by sample *)

(** Whatever its arguments, a call of [ImageSampler.sample] asks the model
    at most once: not at all when the batch could not be built, once when
    the batch was built, also if the scores then cannot be reduced along
    axis 1. *)
Lemma sample_calls_model_once `{Torch} present n g s log r st'
      (Hrun : ImageSampler_sample present n g (s, log) = (r, st')) :
  (forall segs data labels, r = Ok (segs, data, labels) ->
     exists batch imgs samples,
       st' = (s, log ++ [batch]) /\
       length imgs = Z.to_nat n /\
       Forall2 (fun row img => generate_image s row = Ok img) (rows data) imgs /\
       stack imgs = Ok samples /\
       permute [0; 3; 1; 2] samples = Ok batch /\
       shape batch !! 0 = Some (Z.to_nat n)) /\
  (forall e, r = Raise e ->
     (perturbed_batch s present n g = Raise e /\ st' = (s, log)) \/
     (exists data batch,
         perturbed_batch s present n g = Ok (data, batch) /\
         argmax_axis1 (predict_fn s batch) = Raise e /\
         st' = (s, log ++ [batch]))).
Proof.
  rewrite ImageSampler_sample_eq in Hrun.
  destruct (perturbed_batch s present n g) as [[d b]|e0] eqn:Eb.
  - destruct (argmax_axis1 (predict_fn s b)) as [pm|e1] eqn:Ea;
      injection Hrun as <- <-.
    + split; [|discriminate]. intros segs data labels [= <- <- <-].
      apply perturbed_batch_inv in Eb
        as (d0 & imgs & smp & _ & _ & HF & Hlen & _ & Hst & Hp & Hsh).
      exists b, imgs, smp. done.
    + split; [discriminate|]. intros e [= <-]. right. eauto.
  - injection Hrun as <- <-. split; [discriminate|].
    intros e [= <-]. by left.
Qed.

(** C4: a call of [ImageSampler.sample] on a sampler with well-formed
    attributes, with a positive [num_samples] and with indices of [present]
    that address features of the instance, invokes the predict function
    exactly once, whether the call then returns or the scores cannot be
    reduced: the log of model calls grows by one entry, and that entry is
    the one batch made of all [num_samples] perturbed images, one per row of
    the mask that the call returns. *)
Theorem sample_calls_model_exactly_once `{Torch} present n g s log
        (Hwf : sampler_wf s)
        (Hn : (0 < n)%Z)
        (Hpresent :
           Forall (fun p => - Z.of_nat (n_features s) <= p
                            < Z.of_nat (n_features s))%Z present) :
  exists r data imgs samples batch,
    ImageSampler_sample present n g (s, log) = (r, (s, log ++ [batch])) /\
    perturbed_batch s present n g = Ok (data, batch) /\
    shape data = [Z.to_nat n; n_features s] /\
    length imgs = Z.to_nat n /\
    Forall2 (fun row img => generate_image s row = Ok img) (rows data) imgs /\
    stack imgs = Ok samples /\
    permute [0; 3; 1; 2] samples = Ok batch /\
    shape batch !! 0 = Some (Z.to_nat n) /\
    (forall segs d labels, r = Ok (segs, d, labels) -> d = data) /\
    (forall e, r = Raise e -> argmax_axis1 (predict_fn s batch) = Raise e).
Proof.
  rewrite ImageSampler_sample_eq.
  assert (Hb := perturbed_batch_ok s present n g Hwf Hn Hpresent).
  destruct (perturbed_batch s present n g) as [[d b]|] eqn:Eb; [|done].
  apply perturbed_batch_inv in Eb as Hinv.
  destruct Hinv as (d0 & imgs & smp & Hr & Hs & HF & Hlen & _ & Hst & Hp & Hsh).
  destruct (mask_matrix_spec _ _ _ _ _ _ Hr Hs) as (Hshape & _).
  destruct (argmax_axis1 (predict_fn s b)) as [pm|e1] eqn:Ea.
  - eexists _, d, imgs, smp, b. split_and!; try done.
    by intros segs d' labels [= _ <- _].
  - eexists _, d, imgs, smp, b. split_and!; try done.
    by intros e [= <-].
Qed.

Lemma sample_calls_model_exactly_once_witness :
  exists r data batch,
    ImageSampler_sample [(-1)%Z] 3 coin (sampler_1x4, [batch_1x4])
      = (r, (sampler_1x4, [batch_1x4] ++ [batch])) /\
    perturbed_batch sampler_1x4 [(-1)%Z] 3 coin = Ok (data, batch) /\
    shape data = [3; 2] /\
    shape batch !! 0 = Some 3.
Proof.
  destruct (@sample_calls_model_exactly_once torch_Z [(-1)%Z] 3%Z coin
              sampler_1x4 [batch_1x4])
    as (r & data & imgs & smp & batch & Hrun & Hb & Hshape & _ & _ & _ & _
        & Hsh & _).
  - repeat split.
  - lia.
  - repeat constructor; cbn; lia.
  - exists r, data, batch.
    split; [exact Hrun|]. split; [exact Hb|]. split; [exact Hshape|exact Hsh].
Defined.

(** ** The original label *)

Section SequenceFacts.
Context `{Torch}.

Lemma sample_seq_cons present n g reqs st :
  sample_seq ((present, n, g) :: reqs) st =
    let (r, st') := ImageSampler_sample present n g st in
    let (rs, st'') := sample_seq reqs st' in
    (r :: rs, st'').
Proof. reflexivity. Qed.

(** Over any sequence of calls the sampler stays what it was, and each
    call that returns compared the predicted classes with its label. *)
Lemma sample_seq_spec reqs s log :
  (sample_seq reqs (s, log)).2.1 = s /\
  Forall (fun r => forall segs data labels,
              r = Ok (segs, data, labels) ->
              exists batch preds_max,
                argmax_axis1 (predict_fn s batch) = Ok preds_max /\
                labels = label_match (label s) preds_max)
         (sample_seq reqs (s, log)).1.
Proof.
  revert log. induction reqs as [|[[present n] g] reqs IH]; intros log.
  - cbn. split; [done|constructor].
  - rewrite sample_seq_cons, ImageSampler_sample_eq.
    destruct (perturbed_batch s present n g) as [[d b]|e0].
    + specialize (IH (log ++ [b])). revert IH. unfold calls.
      destruct (argmax_axis1 (predict_fn s b)) as [pm|e1] eqn:Ea;
        cbn beta iota;
        destruct (sample_seq reqs _) as [rs st];
        intros [IHs IHr]; cbn in *.
      * split; [done|]. constructor; [|done].
        intros segs data labels [= <- <- <-]. eauto.
      * split; [done|]. constructor; [discriminate|done].
    + specialize (IH log). revert IH. unfold calls. cbn beta iota.
      destruct (sample_seq reqs _) as [rs st].
      intros [IHs IHr]. cbn in *.
      split; [done|]. constructor; [discriminate|done].
Qed.
Lemma omap_length_le {X Y} (f : X -> option Y) (l : list X) :
  length (omap f l) <= length l.
Proof.
  induction l as [|x l IH]; cbn; [done|]. destruct (f x); cbn; lia.
Qed.

(** A sequence of calls, call by call: each call returns what
    [sample_outcome] reads off the attributes, and the model has been asked
    about the batches of perturbed images and about nothing else. *)
Lemma sample_seq_trace reqs s log :
  sample_seq reqs (s, log)
    = (sample_outcome s <$> reqs, (s, log ++ sample_queries s reqs)).
Proof.
  revert log. induction reqs as [|[[present n] g] reqs IH]; intros log.
  - cbn. by rewrite app_nil_r.
  - rewrite sample_seq_cons, ImageSampler_sample_eq.
    unfold sample_queries. cbn [omap list_omap fmap list_fmap].
    fold (sample_queries s reqs). unfold sample_outcome at 1.
    destruct (perturbed_batch s present n g) as [[d b]|e0].
    + destruct (argmax_axis1 (predict_fn s b)) as [pm|e1];
        rewrite IH; cbn; by rewrite <- app_assoc.
    + by rewrite IH.
Qed.
End SequenceFacts.

(** C6: the label of the original instance is computed at construction, by
    the one model call the constructor makes, as the argmax of the scores
    of the single original instance.  Over any sequence of later calls of
    [sample] the model is asked about the batches of perturbed images and
    about nothing else, one call for each request whose batch can be built,
    so the label is not computed again; the sampler and its label stay as
    they are, and every call returns the comparison of the predicted
    classes with this stored label. *)
Theorem label_fixed_at_construction `{Torch} input pf kw log s log1
        (Hinit : ImageSampler_init input pf kw log = (Ok s, log1))
        (reqs : list request) :
  (exists x scores,
      instance_batch input = Ok x /\
      log1 = log ++ [x] /\
      index0 (pf x) = Ok scores /\
      argmax scores = Ok (label s)) /\
  let out := sample_seq reqs (s, log1) in
  out.2 = (s, log1 ++ sample_queries s reqs) /\
  length (sample_queries s reqs) <= length reqs /\
  out.1 = sample_outcome s <$> reqs /\
  out.2.1 = s /\
  label out.2.1 = label s /\
  Forall (fun r => forall segs data labels,
              r = Ok (segs, data, labels) ->
              exists batch preds_max,
                argmax_axis1 (pf batch) = Ok preds_max /\
                labels = label_match (label s) preds_max)
         out.1.
Proof.
  apply ImageSampler_init_ok in Hinit as Hi.
  destruct Hi as (x & row & _ & Hx & Hlog & Hrow & Hl & _ & _ & _ & _ & Hpf).
  split; [eauto 10|].
  destruct (sample_seq_spec reqs s log1) as [Hs Hr].
  cbn zeta. rewrite Hs. rewrite <- Hpf.
  split_and!; try done.
  - by rewrite sample_seq_trace.
  - apply omap_length_le.
  - by rewrite sample_seq_trace.
Qed.

Lemma label_fixed_at_construction_witness :
  exists b1 b3,
    (sample_seq [([], 3%Z, coin); ([5%Z], 2%Z, coin); ([1%Z], 2%Z, coin)]
       (sampler_1x4, [batch_1x4])).2
      = (sampler_1x4, [batch_1x4; b1; b3]) /\
    shape b1 !! 0 = Some 3 /\ shape b3 !! 0 = Some 2 /\
    argmax (Tensor [2] [0; 1]%Z) = Ok (label sampler_1x4).
Proof.
  destruct (@label_fixed_at_construction torch_Z img_1x4 threshold_model []
              [] sampler_1x4 [batch_1x4] init_1x4
              [([], 3%Z, coin); ([5%Z], 2%Z, coin); ([1%Z], 2%Z, coin)])
    as ((x & scores & Hx & _ & Hsc & Hl) & Hlog & _).
  eexists _, _. split; [exact Hlog|].
  split; [reflexivity|]. split; [reflexivity|].
  injection Hx as <-. injection Hsc as <-. exact Hl.
Defined.

(** ** What sample returns *)

(** C3: in what [ImageSampler.sample] returns, an entry of the label-match
    vector is 1 exactly when the argmax class at that position equals the
    sampler's stored label, and 0 otherwise; for a score matrix with one
    row per perturbed sample, entry [i] compares the first maximum of row
    [i] with that label. *)
Theorem label_match_entries `{Torch} present n g s log segs data labels st'
        (Hrun : ImageSampler_sample present n g (s, log)
                = (Ok (segs, data, labels), st')) :
  exists batch preds_max,
    perturbed_batch s present n g = Ok (data, batch) /\
    st' = (s, log ++ [batch]) /\
    argmax_axis1 (predict_fn s batch) = Ok preds_max /\
    (forall q c, flat preds_max !! q = Some c ->
       (flat labels !! q = Some 1%Z <-> c = label s) /\
       (flat labels !! q = Some 0%Z <-> c <> label s)) /\
    (forall m k,
       shape (predict_fn s batch) = [m; k] ->
       tensor_wf (predict_fn s batch) ->
       length (flat labels) = m /\
       forall i scores,
         rows (predict_fn s batch) !! i = Some scores ->
         exists c,
           argmax_list scores = Some c /\
           (flat labels !! i = Some 1%Z <-> c = label s) /\
           (flat labels !! i = Some 0%Z <-> c <> label s)).
Proof.
  rewrite ImageSampler_sample_eq in Hrun.
  destruct (perturbed_batch s present n g) as [[d b]|e0] eqn:Eb;
    [|discriminate].
  destruct (argmax_axis1 (predict_fn s b)) as [pm|e1] eqn:Ea; [|discriminate].
  injection Hrun as <- <- <- <-.
  assert (Hentry : forall q c, flat pm !! q = Some c ->
            (flat (label_match (label s) pm) !! q = Some 1%Z <-> c = label s) /\
            (flat (label_match (label s) pm) !! q = Some 0%Z <-> c <> label s)).
  { intros q c Hc. rewrite (label_match_lookup _ _ _ _ Hc).
    case_decide; split; split; intros; congruence. }
  exists b, pm. split_and!; try done.
  intros m k Hsh Hwf.
  destruct (argmax_axis1_matrix _ _ _ _ Hsh Hwf Ea) as (_ & Hlen & Hrows).
  split.
  - unfold label_match. cbn. by rewrite length_fmap.
  - intros i scores Hi. destruct (Hrows i scores Hi) as (c & Hc & Hq).
    exists c. split; [done|]. by apply Hentry.
Qed.

Lemma label_match_entries_witness :
  exists c,
    argmax_list [1; 0]%Z = Some c /\
    (flat (Tensor [3] [1; 1; 0]%Z) !! 2 = Some 0%Z <-> c <> label sampler_1x4).
Proof.
  destruct (@label_match_entries torch_Z [] 3%Z coin sampler_1x4 [batch_1x4]
              _ _ _ _ sample_1x4)
    as (batch & pm & _ & Hst & _ & _ & Hrows).
  injection Hst as <-.
  destruct (Hrows 3 2 eq_refl eq_refl) as [_ Hrow].
  destruct (Hrow 2 [1; 0]%Z eq_refl) as (c & Hc & _ & H0).
  exists c. split; [exact Hc|exact H0].
Defined.

Section ReturnFacts.
Context `{Torch}.

Lemma argmax_axis1_ok t m k rest :
  shape t = m :: S k :: rest -> is_ok (argmax_axis1 t) = true.
Proof. intros Hsh. unfold argmax_axis1. by rewrite Hsh. Qed.
End ReturnFacts.

(** C2 (counterexample): three samples are requested from the sampler of a
    1 x 4 image; the first component returned is the 1 x 4 segmentation,
    which has four entries in one row, not three. *)
Lemma sample_first_component_not_per_sample :
  exists segs data labels st,
    ImageSampler_sample [0%Z] 3 coin (sampler_1x4, [batch_1x4])
      = (Ok (segs, data, labels), st) /\
    shape segs = [1; 4] /\ length (flat segs) = 4 /\
    shape data = [3; 2] /\ shape labels = [3].
Proof. do 4 eexists. split; [reflexivity|]. repeat split. Qed.

(** C2 (amended): for a sampler with well-formed attributes, a positive
    [num_samples], indices of [present] in range and a model that returns
    scores with a class axis, [ImageSampler.sample] returns a triple: the
    stored segmentation of the image (whatever [num_samples] is), a 0/1 mask
    of [num_samples] rows and [n_features] columns in which every column
    listed in [present] holds ones only, and a 0/1 label-match tensor, of
    length [num_samples] when the model returns one row of scores per
    sample. *)
Theorem sample_returns_triple `{Torch} s log present n g
        (Hwf : sampler_wf s)
        (Hn : (0 < n)%Z)
        (Hpresent :
           Forall (fun p => - Z.of_nat (n_features s) <= p
                            < Z.of_nat (n_features s))%Z present)
        (Hmodel : forall x, exists m k rest,
              shape (predict_fn s x) = m :: S k :: rest) :
  exists data labels batch,
    ImageSampler_sample present n g (s, log)
      = (Ok (segments s, data, labels), (s, log ++ [batch])) /\
    shape data = [Z.to_nat n; n_features s] /\
    length (flat data) = Z.to_nat n * n_features s /\
    Forall (fun v => v = 0 \/ v = 1)%Z (flat data) /\
    (forall p, p ∈ present ->
       exists c, norm_index (n_features s) p = Ok c /\
         forall i, i < Z.to_nat n ->
                   flat data !! (i * n_features s + c) = Some 1%Z) /\
    Forall (fun v => v = 0 \/ v = 1)%Z (flat labels) /\
    (forall k, shape (predict_fn s batch) = [Z.to_nat n; k] ->
               tensor_wf (predict_fn s batch) ->
               shape labels = [Z.to_nat n] /\
               length (flat labels) = Z.to_nat n).
Proof.
  rewrite ImageSampler_sample_eq.
  assert (Hb := perturbed_batch_ok s present n g Hwf Hn Hpresent).
  destruct (perturbed_batch s present n g) as [[d b]|] eqn:Eb; [|done].
  destruct (Hmodel b) as (m & k & rest & Hsh).
  assert (Ha := argmax_axis1_ok _ _ _ _ Hsh).
  destruct (argmax_axis1 (predict_fn s b)) as [pm|] eqn:Ea; [|done].
  apply perturbed_batch_inv in Eb
    as (d0 & imgs & smp & Hr & Hs & _).
  destruct (mask_matrix_spec _ _ _ _ _ _ Hr Hs)
    as (Hshape & Hlen & Hbin & Hcols & _).
  specialize (Hcols Hn).
  exists d, (label_match (label s) pm), b.
  split_and!; try done.
  - apply label_match_binary.
  - intros k' Hsh' Hwf'.
    destruct (argmax_axis1_matrix _ _ _ _ Hsh' Hwf' Ea) as (Hpm & Hlpm & _).
    unfold label_match. cbn. by rewrite length_fmap.
Qed.

Lemma sample_returns_triple_witness :
  exists data labels batch,
    ImageSampler_sample [(-1)%Z] 3 coin (sampler_1x4, [batch_1x4])
      = (Ok (segments sampler_1x4, data, labels),
         (sampler_1x4, [batch_1x4] ++ [batch])) /\
    shape data = [3; 2] /\
    flat data !! 1 = Some 1%Z /\ flat data !! 3 = Some 1%Z /\
    flat data !! 5 = Some 1%Z.
Proof.
  destruct (@sample_returns_triple torch_Z sampler_1x4 [batch_1x4] [(-1)%Z]
              3%Z coin)
    as (data & labels & batch & Hrun & Hshape & _ & _ & Hcols & _).
  - repeat split.
  - lia.
  - repeat constructor; cbn; lia.
  - intros x. exists (default 0 (shape x !! 0)), 1, []. reflexivity.
  - exists data, labels, batch. split; [exact Hrun|]. split; [exact Hshape|].
    destruct (Hcols (-1)%Z) as (c & Hc & Hones).
    + repeat constructor.
    + injection Hc as <-.
      split; [exact (Hones 0 ltac:(cbn; lia))|].
      split; [exact (Hones 1 ltac:(cbn; lia))|exact (Hones 2 ltac:(cbn; lia))].
Defined.

(** * Further properties of the code *)

(** ** Registration and dispatch *)

(** X1: in ianchor/samplers, [create] after [__init_subclass__] of [cls]
    calls the constructor of [cls] for the type of [cls], whatever was
    registered for that type before, and behaves as before the registration
    for every other type. *)
Theorem create_after_init_subclass `{Torch} {C O : Type}
        (new : C -> tensor scalar -> predictor -> kwargs -> M calls O)
        (class_type : C -> Tasktype) (cls : C) (subclasses : gmap Tasktype C)
        type input pf task_specific kw log :
  ianchor_samplers.Sampler_create new
    (ianchor_samplers.init_subclass class_type cls subclasses)
    type input pf task_specific kw log =
  if decide (class_type cls = type)
  then new cls input pf task_specific log
  else ianchor_samplers.Sampler_create new subclasses type input pf
         task_specific kw log.
Proof.
  unfold ianchor_samplers.Sampler_create. rewrite init_subclass_lookup.
  by case_decide.
Qed.

(** X2: with the registry anchor.py builds when it is loaded, [create]
    finds a subclass for every task type: it never raises its [ValueError],
    and its outcome is the constructor call of the class whose [type] is the
    requested one. *)
Theorem create_finds_every_tasktype `{Torch} type input pf kw log :
  exists cls,
    class_type cls = type /\
    Sampler_create Sampler_subclasses type input pf kw log
      = construct cls input pf kw log /\
    forall msg log',
      Sampler_create Sampler_subclasses type input pf kw log
        <> (Raise (ValueError msg), log').
Proof.
  exists (match type with
          | TABULAR => TabularSampler
          | IMAGE => ImageSampler_cls
          | TEXT => TextSampler
          end).
  assert (Hrun : Sampler_create Sampler_subclasses type input pf kw log
                 = construct (match type with
                              | TABULAR => TabularSampler
                              | IMAGE => ImageSampler_cls
                              | TEXT => TextSampler
                              end) input pf kw log) by (by destruct type).
  split_and!; [by destruct type|done|].
  intros msg log' Hv. rewrite Hrun in Hv.
  by eapply construct_no_ValueError in Hv.
Qed.

(** ** Failures of the constructor *)

(** X3: an instance with fewer than three dimensions makes
    [ImageSampler.__init__] fail with [IndexError], and one whose third
    dimension is 3 but which has not exactly three dimensions makes it fail
    with [RuntimeError]; in both cases the model has not been called. *)
Theorem init_rejects_rank `{Torch} input pf kw log
        (Hrank : length (shape input) <> 3)
        (Hchan : forall c, shape input !! 2 = Some c -> c = 3) :
  ImageSampler_init input pf kw log =
    (Raise (if decide (length (shape input) < 3) then IndexError
            else RuntimeError), log).
Proof.
  unfold ImageSampler_init, shape_at, py_assert, instance_batch, permute.
  unfold_M.
  destruct (shape input !! 2) as [c|] eqn:Ec.
  - rewrite (Hchan c eq_refl). cbn.
    apply lookup_lt_Some in Ec.
    repeat case_decide; cbn in *; done || lia.
  - apply lookup_ge_None in Ec. rewrite decide_True by lia. done.
Qed.

Lemma init_rejects_rank_witness :
  ImageSampler_init img_2d threshold_model [] [batch_1x4]
    = (Raise IndexError, [batch_1x4]) /\
  ImageSampler_init (Tensor [1; 1; 3; 2] [1; 2; 3; 4; 5; 6]%Z) threshold_model
    [] [batch_1x4] = (Raise RuntimeError, [batch_1x4]).
Proof.
  split.
  - apply (@init_rejects_rank torch_Z img_2d threshold_model [] [batch_1x4]);
      [cbn; lia|cbn; discriminate].
  - apply (@init_rejects_rank torch_Z (Tensor [1; 1; 3; 2] [1; 2; 3; 4; 5; 6]%Z)
             threshold_model [] [batch_1x4]);
      [cbn; lia|cbn; congruence].
Defined.

(** X4: when the model answers the single original instance with a tensor
    that has no first row, construction fails with [IndexError] after
    exactly one model call, the one on the original instance. *)
Theorem init_model_without_rows `{Torch} input pf kw log x
        (Hchan : shape input !! 2 = Some 3)
        (Hbatch : instance_batch input = Ok x)
        (Hrows : shape (pf x) = [] \/ shape (pf x) !! 0 = Some 0) :
  ImageSampler_init input pf kw log = (Raise IndexError, log ++ [x]).
Proof.
  unfold ImageSampler_init, shape_at, py_assert. unfold_M.
  rewrite Hchan. cbn. rewrite Hbatch.
  unfold index0. destruct Hrows as [-> | Hz]; [done|].
  destruct (shape (pf x)) as [|[|n] sh]; [done..|discriminate].
Qed.

Lemma init_model_without_rows_witness :
  ImageSampler_init img_1x4 (fun _ => Tensor [0; 2] []) [] []
    = (Raise IndexError, [] ++ [batch_1x4]).
Proof.
  apply (@init_model_without_rows torch_Z img_1x4 (fun _ => Tensor [0; 2] [])
           [] [] batch_1x4); [reflexivity|reflexivity|right; reflexivity].
Defined.

(** ** Attributes of a constructed sampler *)

Section AttributeFacts.
Context `{Torch}.

Lemma argmax_from_bound best_i best i l :
  best_i < i -> argmax_from best_i best i l < i + length l.
Proof.
  revert best_i best i. induction l as [|x l IH]; intros bi b i Hlt; cbn.
  - lia.
  - destruct (scalar_ltb b x).
    + specialize (IH i x (S i)). lia.
    + specialize (IH bi b (S i)). lia.
Qed.

Lemma argmax_list_bound l i : argmax_list l = Some i -> i < length l.
Proof.
  destruct l as [|x l]; [done|]. cbn. intros [= <-].
  pose proof (argmax_from_bound 0 x 1 l). lia.
Qed.

Lemma unique_elem_of (t : tensor Z) z : z ∈ unique t <-> z ∈ flat t.
Proof.
  unfold unique. by rewrite merge_sort_Permutation, elem_of_remove_dups.
Qed.

Lemma unique_NoDup (t : tensor Z) : NoDup (unique t).
Proof.
  unfold unique. rewrite merge_sort_Permutation. apply NoDup_remove_dups.
Qed.
End AttributeFacts.

(** X5: the label stored by [ImageSampler.__init__] is a valid class index:
    it is a position inside the scores the model gave for the original
    instance. *)
Theorem init_label_in_range `{Torch} input pf kw log s log'
        (Hinit : ImageSampler_init input pf kw log = (Ok s, log')) :
  exists x scores,
    instance_batch input = Ok x /\
    index0 (pf x) = Ok scores /\
    label s < length (flat scores).
Proof.
  apply ImageSampler_init_ok in Hinit
    as (x & row & _ & Hx & _ & Hrow & Hl & _).
  exists x, row. split_and!; [done..|].
  unfold argmax in Hl. destruct (argmax_list (flat row)) as [i|] eqn:Ei;
    [|discriminate].
  injection Hl as <-. by apply argmax_list_bound.
Qed.

Lemma init_label_in_range_witness :
  exists scores,
    index0 (threshold_model batch_1x4) = Ok scores /\
    label sampler_1x4 < length (flat scores).
Proof.
  destruct (@init_label_in_range torch_Z img_1x4 threshold_model [] []
              sampler_1x4 [batch_1x4] init_1x4)
    as (x & scores & Hx & Hsc & Hlt).
  injection Hx as <-. exists scores. split; [exact Hsc|exact Hlt].
Defined.

(** X6: [n_features] counts the distinct labels of the segmentation: the
    features are the labels that occur in [segments], each once, in
    increasing order; there are at most as many as pixels in the
    segmentation and at least one when it is not empty. *)
Theorem init_features_are_distinct_labels `{Torch} input pf kw log s log'
        (Hinit : ImageSampler_init input pf kw log = (Ok s, log')) :
  let features := unique (segments s) in
  n_features s = length features /\
  NoDup features /\
  Sorted Z.le features /\
  (forall z, z ∈ features <-> z ∈ flat (segments s)) /\
  n_features s <= length (flat (segments s)) /\
  (flat (segments s) <> [] -> 0 < n_features s).
Proof.
  apply ImageSampler_init_ok in Hinit
    as (x & row & _ & _ & _ & _ & _ & Hseg & Hn & _).
  intros features. subst features. rewrite Hn, Hseg.
  split_and!.
  - done.
  - apply unique_NoDup.
  - unfold unique. apply (Sorted_merge_sort Z.le).
  - apply unique_elem_of.
  - apply submseteq_length, NoDup_submseteq; [apply unique_NoDup|].
    intros z. by rewrite unique_elem_of.
  - intros Hne. destruct (flat (quickshift input)) as [|z l] eqn:El; [done|].
    assert (Hin : z ∈ unique (quickshift input)).
    { apply unique_elem_of. rewrite El. left. }
    destruct (unique (quickshift input)); [by apply elem_of_nil in Hin|].
    cbn. lia.
Qed.

Lemma init_features_are_distinct_labels_witness :
  n_features sampler_1x4 = 2 /\ unique (segments sampler_1x4) = [0; 1]%Z /\
  0 < n_features sampler_1x4.
Proof.
  destruct (@init_features_are_distinct_labels torch_Z img_1x4 threshold_model
              [] [] sampler_1x4 [batch_1x4] init_1x4)
    as (Hn & _ & _ & _ & _ & Hpos).
  split; [exact Hn|]. split; [reflexivity|]. apply Hpos. discriminate.
Defined.

(** ** When the constructor succeeds *)

Section InitTotal.
Context `{Torch}.


(** On a tensor that is not floating point the first round of the loop
    already fails, in [torch.mean]. *)
Lemma fill_segment_mean_not_floating segs sp spixel h w c :
  floating_point = false ->
  shape segs = [h; w] -> shape sp = [h; w; c] ->
  fill_segment_mean segs sp spixel = Raise RuntimeError.
Proof.
  intros Hfloat Hsegs Hsp. unfold fill_segment_mean, check_mask.
  rewrite Hsegs, Hsp, Hfloat. cbn.
  rewrite (decide_True (P := [h; w] = [h; w])) by done. cbn.
  by rewrite (decide_True (P := 2 < 3)) by lia.
Qed.

End InitTotal.



(** ** Perturbed images *)

Section PerturbFacts.
Context `{Torch}.

Lemma where_zero_elem_of row j : j ∈ where_zero row <-> row !! j = Some 0%Z.
Proof.
  unfold where_zero. rewrite list_elem_of_omap. split.
  - intros ([i v] & Hin & Hsel). apply elem_of_lookup_imap in Hin
      as (i' & v' & [= -> ->] & Hlook). cbn in Hsel.
    case_decide; [|discriminate]. injection Hsel as <-. by subst.
  - intros Hj. exists (j, 0%Z). split.
    + apply elem_of_lookup_imap. eauto.
    + cbn. by rewrite decide_True.
Qed.

(** The mask built by the loop over the zeros of the feature mask. *)
Lemma zeros_loop_lookup (segs : list Z) zeros (m : list bool) p b z :
  m !! p = Some b -> segs !! p = Some z ->
  fold_left
    (fun (m : list bool) (z : nat) =>
       (fun bs : bool * Z =>
          if bool_decide (bs.2 = Z.of_nat z) then true else bs.1)
         <$> zip m segs)
    zeros m !! p =
  Some (b || bool_decide (Exists (fun j => z = Z.of_nat j) zeros)).
Proof.
  revert m b. induction zeros as [|j zeros IH]; intros m b Hm Hz;
    cbn [fold_left].
  - rewrite bool_decide_eq_false_2 by (by intros ?%Exists_nil).
    by rewrite orb_false_r.
  - erewrite IH; [|by rewrite list_lookup_fmap, lookup_zip_with, Hm, Hz|done].
    cbn. f_equal.
    destruct (decide (z = Z.of_nat j)) as [->|Hne].
    + rewrite bool_decide_eq_true_2 by done.
      rewrite (bool_decide_eq_true_2 (Exists _ (j :: zeros)))
        by (by left).
      by rewrite orb_true_r.
    + rewrite (bool_decide_eq_false_2 (z = Z.of_nat j)) by done.
      f_equal. apply bool_decide_ext. rewrite Exists_cons.
      split; [by right|by intros [?|?]].
Qed.

Lemma zeros_loop_length (segs : list Z) zeros (m : list bool) :
  length m = length segs ->
  length (fold_left
            (fun (m : list bool) (z : nat) =>
               (fun bs : bool * Z =>
                  if bool_decide (bs.2 = Z.of_nat z) then true else bs.1)
                 <$> zip m segs)
            zeros m) = length segs.
Proof.
  revert m. induction zeros as [|j zeros IH]; intros m Hm; cbn [fold_left].
  - done.
  - apply IH. rewrite length_fmap, length_zip. lia.
Qed.

Lemma feature_off_spec row z :
  feature_off row z =
    bool_decide (Exists (fun j => z = Z.of_nat j) (where_zero row)).
Proof.
  unfold feature_off. apply bool_decide_ext. rewrite Exists_exists. split.
  - intros [Hz Hrow]. exists (Z.to_nat z). rewrite where_zero_elem_of.
    split; [done|lia].
  - intros (j & Hj & ->). apply where_zero_elem_of in Hj.
    by rewrite Nat2Z.id; split; [lia|].
Qed.

(** What [__generate_image] does to each element of the image. *)
Lemma generate_image_lookup s row img' k x :
  generate_image s row = Ok img' ->
  flat (image s) !! k = Some x ->
  flat img' !! k =
    Some (if replaced s row k then default x (flat (sp_image s) !! k) else x).
Proof.
  unfold generate_image, check_mask. cbn.
  repeat (case_decide; cbn); try discriminate.
  intros [= <-] Hx. cbn. unfold masked_copy.
  rewrite list_lookup_imap, Hx. cbn. f_equal.
  unfold selected, replaced.
  set (B := numel _).
  destruct (flat (segments s) !! (k / B)) as [z|] eqn:Ez.
  - erewrite zeros_loop_lookup;
      [|by rewrite list_lookup_fmap, Ez|exact Ez].
    cbn. by rewrite feature_off_spec.
  - rewrite (proj2 (lookup_ge_None _ _)); [done|].
    rewrite zeros_loop_length by (by rewrite length_fmap).
    by apply lookup_ge_None.
Qed.

Lemma generate_image_length s row img' :
  generate_image s row = Ok img' ->
  length (flat img') = length (flat (image s)).
Proof.
  unfold generate_image, check_mask. cbn.
  repeat (case_decide; cbn); try discriminate.
  intros [= <-]. cbn. unfold masked_copy. by rewrite length_imap.
Qed.
End PerturbFacts.

(** X8: [__generate_image] keeps the shape and the size of the image and
    decides element by element: an element whose pixel lies in a segment
    with label [z] is replaced by the superpixel image's element exactly
    when the feature mask holds 0 at position [z]; elements of segments
    whose feature is on, and of segments whose label is no position of the
    mask, keep the value of the original image. *)
Theorem generate_image_pixels `{Torch} s row img'
        (Hgen : generate_image s row = Ok img') :
  shape img' = shape (image s) /\
  length (flat img') = length (flat (image s)) /\
  forall k x, flat (image s) !! k = Some x ->
    (replaced s row k = true ->
     flat img' !! k = Some (default x (flat (sp_image s) !! k))) /\
    (replaced s row k = false -> flat img' !! k = Some x).
Proof.
  split_and!.
  - by eapply generate_image_shape.
  - by eapply generate_image_length.
  - intros k x Hx.
    rewrite (generate_image_lookup _ _ _ _ _ Hgen Hx).
    split; by intros ->.
Qed.

Lemma generate_image_pixels_witness :
  exists img',
    generate_image sampler_1x4 [1; 0]%Z = Ok img' /\
    flat img' !! 0 = Some 5%Z /\ flat img' !! 6 = Some (-5)%Z.
Proof.
  exists (Tensor [1; 4; 3] [5; 6; 7; 1; 2; 3; -5; -6; -7; -5; -6; -7]%Z).
  split; [reflexivity|].
  destruct (@generate_image_pixels torch_Z sampler_1x4 [1; 0]%Z _ eq_refl)
    as (_ & _ & Hpix).
  split.
  - exact (proj2 (Hpix 0 5%Z eq_refl) eq_refl).
  - exact (proj1 (Hpix 6 (-8)%Z eq_refl) eq_refl).
Defined.

(** ** The batch handed to the model *)

(** X9: whenever [ImageSampler.sample] calls the model, it is on a batch in
    the layout samples x channels x height x width, with one entry per
    requested sample: for an image of shape height x width x channels the
    logged batch has shape [num_samples; channels; height; width]. *)
Theorem sample_batch_layout `{Torch} present n g s log r st' h w c
        (Hshape : shape (image s) = [h; w; c])
        (Hrun : ImageSampler_sample present n g (s, log) = (r, st')) :
  st' = (s, log) \/
  exists batch,
    st' = (s, log ++ [batch]) /\ shape batch = [Z.to_nat n; c; h; w].
Proof.
  rewrite ImageSampler_sample_eq in Hrun.
  destruct (perturbed_batch s present n g) as [[d b]|e0] eqn:Eb.
  2:{ left. by injection Hrun as <- <-. }
  right. exists b. split.
  { destruct (argmax_axis1 (predict_fn s b)); by injection Hrun as <- <-. }
  apply perturbed_batch_inv in Eb
    as (d0 & imgs & smp & _ & _ & HF & Hlen & _ & Hst & Hp & _).
  apply stack_inv in Hst as (t0 & Ht0 & Hsmp).
  assert (Hsh0 : shape t0 = [h; w; c]).
  { rewrite head_lookup in Ht0.
    destruct (Forall2_lookup_r _ _ _ _ _ HF Ht0) as (row & _ & Hg).
    apply generate_image_shape in Hg. congruence. }
  unfold permute in Hp. case_decide; [|discriminate].
  injection Hp as <-. cbn. rewrite Hsmp, Hsh0. cbn. by rewrite Hlen.
Qed.

Lemma sample_batch_layout_witness :
  exists batch,
    (ImageSampler_sample [] 3 coin (sampler_1x4, [batch_1x4])).2
      = (sampler_1x4, [batch_1x4] ++ [batch]) /\
    shape batch = [3; 3; 1; 4].
Proof.
  destruct (@sample_batch_layout torch_Z [] 3%Z coin sampler_1x4 [batch_1x4]
              _ _ 1 4 3 eq_refl sample_1x4) as [Hno | (batch & Hst & Hsh)].
  - discriminate.
  - exists batch. split; [exact Hst|exact Hsh].
Defined.

(** ** Edge cases of sample *)

Section SampleEdges.
Context `{Torch}.

Lemma feature_off_all_ones row z :
  Forall (fun v => v = 1%Z) row -> feature_off row z = false.
Proof.
  intros Hrow. unfold feature_off. apply bool_decide_eq_false_2.
  intros [_ Hz]. rewrite Forall_lookup in Hrow.
  by specialize (Hrow _ _ Hz).
Qed.

(** A feature mask without zeros gives back the image itself. *)
Lemma generate_image_identity s row img' :
  Forall (fun v => v = 1%Z) row ->
  generate_image s row = Ok img' -> img' = image s.
Proof.
  intros Hrow Hgen.
  pose proof (generate_image_shape _ _ _ Hgen) as Hsh.
  pose proof (generate_image_length _ _ _ Hgen) as Hlen.
  assert (Hflat : flat img' = flat (image s)).
  { apply list_eq. intros k.
    destruct (flat (image s) !! k) as [x|] eqn:Ex.
    - rewrite (generate_image_lookup _ _ _ _ _ Hgen Ex).
      unfold replaced. destruct (flat (segments s) !! _); [|done].
      by rewrite feature_off_all_ones.
    - apply lookup_ge_None. apply lookup_ge_None in Ex. lia. }
  destruct img', (image s). cbn in *. by subst.
Qed.

Lemma norm_index_of_nat F c : c < F -> norm_index F (Z.of_nat c) = Ok c.
Proof.
  intros Hc. unfold norm_index. rewrite decide_True by lia.
  by rewrite Nat2Z.id.
Qed.

Lemma rows_Forall {X} (P : X -> Prop) (t : tensor X) :
  Forall P (flat t) -> Forall (Forall P) (rows t).
Proof.
  intros Hall. unfold rows. destruct (shape t) as [|n sh]; [constructor|].
  apply Forall_fmap, Forall_forall. intros i _. cbn.
  by apply Forall_take, Forall_drop.
Qed.
End SampleEdges.

(** X10: when [present] lists every feature, [ImageSampler.sample] perturbs
    nothing: the mask it returns holds ones only and the batch given to the
    model is made of [num_samples] copies of the original image. *)
Theorem sample_all_present `{Torch} s log present n g segs data labels st'
        (Hall : forall c, c < n_features s -> Z.of_nat c ∈ present)
        (Hrun : ImageSampler_sample present n g (s, log)
                = (Ok (segs, data, labels), st')) :
  Forall (fun v => v = 1%Z) (flat data) /\
  exists samples batch,
    stack (replicate (Z.to_nat n) (image s)) = Ok samples /\
    permute [0; 3; 1; 2] samples = Ok batch /\
    st' = (s, log ++ [batch]).
Proof.
  rewrite ImageSampler_sample_eq in Hrun.
  destruct (perturbed_batch s present n g) as [[d b]|e0] eqn:Eb;
    [|discriminate].
  destruct (argmax_axis1 (predict_fn s b)) as [pm|e1]; [|discriminate].
  injection Hrun as <- <- <- <-.
  apply perturbed_batch_inv in Eb
    as (d0 & imgs & smp & Hr & Hs & HF & Hlen & Hpos & Hst & Hp & _).
  assert (Hones : Forall (fun v => v = 1%Z) (flat d)).
  { apply randint_ok in Hr as (_ & Hsh0 & Hfl0).
    apply set_columns_ok in Hs
      as (n' & f & Hsh & _ & [[-> _] | (_ & cols & Hcols & Hfl)]).
    { rewrite Hsh0 in Hsh. injection Hsh as Hz _. lia. }
    rewrite Hsh0 in Hsh. injection Hsh as <- <-.
    apply mapM_result_ok in Hcols.
    rewrite Hfl. apply Forall_lookup. intros k v.
    rewrite list_lookup_imap, Hfl0, list_lookup_fmap.
    destruct (seq 0 _ !! k) as [k'|] eqn:Ek; [|discriminate].
    apply lookup_seq in Ek as [-> Hk]. cbn. intros [= <-].
    rewrite decide_True; [done|].
    assert (HF0 : 0 < n_features s) by nia.
    assert (Hmod : k mod n_features s < n_features s)
      by (apply Nat.mod_upper_bound; lia).
    destruct (list_elem_of_lookup_1 _ _ (Hall _ Hmod)) as [j Hj].
    destruct (Forall2_lookup_l _ _ _ _ _ Hcols Hj) as (c & Hc & Hpc).
    rewrite norm_index_of_nat in Hpc by done. injection Hpc as <-.
    by eapply list_elem_of_lookup_2. }
  split; [done|].
  assert (Himgs : imgs = replicate (Z.to_nat n) (image s)).
  { symmetry. apply replicate_as_Forall. split; [done|].
    apply Forall_forall. intros img Hin.
    apply list_elem_of_lookup_1 in Hin as [j Hj].
    destruct (Forall2_lookup_r _ _ _ _ _ HF Hj) as (row & Hrow & Hg).
    symmetry. eapply generate_image_identity; [|exact Hg].
    pose proof (rows_Forall _ _ Hones) as Hrows.
    rewrite Forall_lookup in Hrows. eauto. }
  subst imgs. eauto.
Qed.

Lemma sample_all_present_witness :
  exists data samples batch,
    Forall (fun v => v = 1%Z) (flat data) /\ shape data = [2; 2] /\
    stack (replicate 2 img_1x4) = Ok samples /\
    permute [0; 3; 1; 2] samples = Ok batch.
Proof.
  destruct (@sample_all_present torch_Z sampler_1x4 [batch_1x4] [1; 0]%Z 2%Z
              coin _ _ _ _ ltac:(
                intros [|[|c]] Hc; cbn in Hc; [repeat constructor..|lia])
              eq_refl)
    as (Hones & smp & batch & Hst & Hp & _).
  eexists _, smp, batch. split; [exact Hones|]. split; [reflexivity|].
  split; [exact Hst|exact Hp].
Defined.

(** X11: [ImageSampler.sample] with [num_samples] zero or negative never
    returns and never calls the model: it raises while the mask or the
    batch is built, [RuntimeError] when [num_samples] is negative. *)
Theorem sample_without_samples `{Torch} s log present n g
        (Hn : (n <= 0)%Z) :
  exists e,
    ImageSampler_sample present n g (s, log) = (Raise e, (s, log)) /\
    (e = RuntimeError \/ e = IndexError) /\
    ((n < 0)%Z -> e = RuntimeError).
Proof.
  rewrite ImageSampler_sample_eq. unfold perturbed_batch.
  destruct (randint g n (n_features s)) as [d0|e] eqn:Er.
  2:{ exists e. apply randint_raises in Er as ->. eauto. }
  cbn. apply randint_ok in Er as (Hn0 & Hsh0 & _).
  assert (n = 0%Z) as -> by lia.
  destruct (set_columns present 1 d0) as [d|e] eqn:Es.
  2:{ exists e. apply set_columns_raises in Es as ->.
      split_and!; [done|by right|lia]. }
  cbn. apply set_columns_ok in Es as (n' & f & _ & Hsh' & _).
  assert (Hrows : rows d = []).
  { unfold rows. rewrite Hsh', Hsh0. done. }
  rewrite Hrows. cbn. exists RuntimeError. split_and!; [done|by left|done].
Qed.

Lemma sample_without_samples_witness :
  exists e,
    ImageSampler_sample [0%Z] 0 coin (sampler_1x4, [batch_1x4])
      = (Raise e, (sampler_1x4, [batch_1x4])) /\
    (e = RuntimeError \/ e = IndexError).
Proof.
  destruct (@sample_without_samples torch_Z sampler_1x4 [batch_1x4] [0%Z] 0%Z
              coin ltac:(lia)) as (e & Hrun & He & _).
  exists e. split; [exact Hrun|exact He].
Defined.

(** X12: [ImageSampler.sample] forces only the columns listed in [present]:
    in the mask it returns, an entry of a column that no index of [present]
    addresses is the bit drawn at random for that entry. *)
Theorem sample_keeps_random_bits `{Torch} s log present n g segs data labels
        st' i c
        (Hrun : ImageSampler_sample present n g (s, log)
                = (Ok (segs, data, labels), st'))
        (Hi : i < Z.to_nat n) (Hc : c < n_features s)
        (Hfree : forall p, p ∈ present -> norm_index (n_features s) p <> Ok c) :
  flat data !! (i * n_features s + c)
    = Some (Z.b2z (g (i * n_features s + c))).
Proof.
  rewrite ImageSampler_sample_eq in Hrun.
  destruct (perturbed_batch s present n g) as [[d b]|e0] eqn:Eb;
    [|discriminate].
  destruct (argmax_axis1 (predict_fn s b)) as [pm|e1]; [|discriminate].
  injection Hrun as <- <- <- <-.
  apply perturbed_batch_inv in Eb as (d0 & imgs & smp & Hr & Hs & _).
  destruct (mask_matrix_spec _ _ _ _ _ _ Hr Hs) as (_ & _ & _ & _ & Hfreecols).
  by apply Hfreecols.
Qed.

Lemma sample_keeps_random_bits_witness :
  flat (Tensor [3; 2] [1; 1; 1; 1; 0; 1]%Z) !! 4 = Some (Z.b2z (coin 4)).
Proof.
  apply (@sample_keeps_random_bits torch_Z sampler_1x4 [batch_1x4] [(-1)%Z]
           3%Z coin _ _ _ _ 2 0 eq_refl).
  - cbn; lia.
  - cbn; lia.
  - intros p Hp. apply list_elem_of_singleton in Hp as ->. discriminate.
Defined.

(** ** The present argument as a set *)

Section PresentFacts.
Context `{Torch}.

Lemma mapM_result_raise_inv {X Y} (f : X -> result Y) (l : list X) e :
  mapM f l = Raise e -> exists x, x ∈ l /\ f x = Raise e.
Proof.
  induction l as [|x l IH]; cbn; [discriminate|].
  destruct (f x) as [y|e0] eqn:Ey; cbn.
  - destruct (mapM f l) as [k|e1] eqn:Ek; cbn; [discriminate|].
    intros [= <-]. destruct (IH eq_refl) as (x' & Hin & Hx').
    exists x'. split; [by right|done].
  - intros [= <-]. exists x. split; [by left|done].
Qed.

Lemma mapM_result_elem_of {X Y} (f : X -> result Y) (l : list X) ys y :
  mapM f l = Ok ys -> y ∈ ys <-> exists x, x ∈ l /\ f x = Ok y.
Proof.
  intros HF%mapM_result_ok. split.
  - intros [j Hj]%list_elem_of_lookup_1.
    destruct (Forall2_lookup_r _ _ _ _ _ HF Hj) as (x & Hx & Hxy).
    exists x. split; [by eapply list_elem_of_lookup_2|done].
  - intros (x & [j Hj]%list_elem_of_lookup_1 & Hxy).
    destruct (Forall2_lookup_l _ _ _ _ _ HF Hj) as (y' & Hy' & Hxy').
    assert (y' = y) as -> by congruence.
    by eapply list_elem_of_lookup_2.
Qed.

Lemma set_columns_same_elements present present' v d :
  (forall p, p ∈ present <-> p ∈ present') ->
  set_columns present v d = set_columns present' v d.
Proof.
  intros Hsame. unfold set_columns.
  destruct (shape d) as [|n [|f [|? ?]]]; try done.
  case_decide; [done|].
  destruct (mapM (norm_index f) present) as [cols|e] eqn:E;
    destruct (mapM (norm_index f) present') as [cols'|e'] eqn:E'; cbn.
  - do 2 f_equal. apply imap_ext. intros k x _.
    apply decide_ext.
    rewrite (mapM_result_elem_of _ _ _ _ E), (mapM_result_elem_of _ _ _ _ E').
    split; intros (p & Hp & Hpc); exists p; by rewrite ?Hsame in *.
  - apply mapM_result_raise_inv in E' as (p & Hp & Hr).
    apply Hsame in Hp as [j Hj]%list_elem_of_lookup_1.
    apply mapM_result_ok in E.
    destruct (Forall2_lookup_l _ _ _ _ _ E Hj) as (c & _ & Hc). congruence.
  - apply mapM_result_raise_inv in E as (p & Hp & Hr).
    apply Hsame in Hp as [j Hj]%list_elem_of_lookup_1.
    apply mapM_result_ok in E'.
    destruct (Forall2_lookup_l _ _ _ _ _ E' Hj) as (c & _ & Hc). congruence.
  - apply mapM_result_raise_inv in E as (p & _ & ->%norm_index_raises).
    by apply mapM_result_raise_inv in E' as (p' & _ & ->%norm_index_raises).
Qed.
End PresentFacts.

(** X13: [ImageSampler.sample] reads [present] as a set: two index tensors
    with the same entries, in any order and with any repetitions, give the
    same outcome, the same model call included. *)
Theorem sample_present_as_set `{Torch} present present' n g s log
        (Hsame : forall p, p ∈ present <-> p ∈ present') :
  ImageSampler_sample present n g (s, log)
    = ImageSampler_sample present' n g (s, log).
Proof.
  rewrite !ImageSampler_sample_eq. unfold perturbed_batch.
  destruct (randint g n (n_features s)) as [d0|e]; [|done]. cbn.
  by rewrite (set_columns_same_elements present present' 1 d0 Hsame).
Qed.

Lemma sample_present_as_set_witness :
  ImageSampler_sample [0; 1; 0]%Z 2 coin (sampler_1x4, [batch_1x4])
    = ImageSampler_sample [1; 0]%Z 2 coin (sampler_1x4, [batch_1x4]).
Proof.
  apply (@sample_present_as_set torch_Z [0; 1; 0]%Z [1; 0]%Z 2%Z coin
           sampler_1x4 [batch_1x4]).
  intros p. rewrite !elem_of_cons, elem_of_nil. tauto.
Defined.

(** ** Counting the model calls of a search *)

(** X14: over any sequence of [sample] calls on one sampler the log of model
    calls only grows at its end, by at most one batch per call and by at
    least one batch per call that returned. *)
Theorem sample_seq_log `{Torch} reqs s log :
  exists added,
    (sample_seq reqs (s, log)).2 = (s, log ++ added) /\
    length added <= length reqs /\
    length (filter (fun r => is_ok r = true) (sample_seq reqs (s, log)).1)
      <= length added.
Proof.
  revert log. induction reqs as [|[[present n] g] reqs IH]; intros log.
  - exists []. cbn. by rewrite app_nil_r.
  - rewrite sample_seq_cons, ImageSampler_sample_eq.
    destruct (perturbed_batch s present n g) as [[d b]|e0].
    + destruct (IH (log ++ [b])) as (added & Hst & Hlen & Hok).
      exists (b :: added). revert Hst Hok. unfold calls.
      destruct (argmax_axis1 (predict_fn s b)) as [pm|e1]; cbn beta iota;
        destruct (sample_seq reqs _) as [rs st]; cbn [fst snd];
        intros -> Hok; rewrite <- app_assoc; cbn [app].
      * split_and!; [done|cbn; lia|].
        rewrite filter_cons_True by done. cbn. lia.
      * split_and!; [done|cbn; lia|].
        rewrite filter_cons_False by done. cbn. lia.
    + destruct (IH log) as (added & Hst & Hlen & Hok).
      exists added. revert Hst Hok. unfold calls. cbn beta iota.
      destruct (sample_seq reqs _) as [rs st]; cbn [fst snd].
      intros -> Hok. split_and!; [done|cbn; lia|].
      rewrite filter_cons_False by done. done.
Qed.

(** ** The search routines called as methods *)

(** X15: [__greedy_anchor] and [beam_anchor] are declared without [self].
    Called through an [Anchor] object, [beam_anchor] always raises
    [TypeError]; [__greedy_anchor] accepts up to three further arguments and
    then takes the object itself for [sample_fn] and the first argument of
    the call for [delta]. *)
Theorem search_routines_as_methods `{Torch} (self : Anchor) (args : list pyval) :
  method_call beam_anchor self args = Raise TypeError /\
  (method_call greedy_anchor self args = Ok tt <-> length args <= 3) /\
  (forall fr, greedy_anchor_bind (PyAnchor self :: args) = Ok fr ->
     sample_fn fr = PyAnchor self /\
     forall a rest, args = a :: rest -> delta fr = a).
Proof.
  unfold method_call, greedy_anchor. split_and!.
  - done.
  - destruct args as [|a [|d [|e [|b rest]]]]; cbn; split;
      (done || lia || discriminate).
  - destruct args as [|a [|d [|e [|b rest]]]]; cbn; intros fr Hfr;
      try discriminate; injection Hfr as <-; cbn;
      (split; [done|]); intros ? ? [= <- <-] || intros ? ?; done.
Qed.

Lemma search_routines_as_methods_witness :
  exists fr,
    greedy_anchor_bind
      [PyAnchor (Anchor_new IMAGE false);
       PySampleMethod (ImageSampler_obj sampler_1x4)] = Ok fr /\
    delta fr = PySampleMethod (ImageSampler_obj sampler_1x4).
Proof.
  destruct (@search_routines_as_methods torch_Z (Anchor_new IMAGE false)
              [PySampleMethod (ImageSampler_obj sampler_1x4)])
    as (_ & _ & Hbind).
  eexists. split; [reflexivity|].
  exact (proj2 (Hbind _ eq_refl) _ _ eq_refl).
Defined.

(** ** The superpixel image *)

Section SuperpixelFacts.
Context `{Torch}.
Variable segs : tensor Z.
Variable input : tensor scalar.
Variable B : nat.
Hypothesis HB : 0 < B.

Local Abbreviation mask := (label_mask segs).
Local Abbreviation means_filled := (means_filled B segs input).

Lemma omap_ext_elem {X Y} (f g : X -> option Y) (l : list X) :
  (forall x, x ∈ l -> f x = g x) -> omap f l = omap g l.
Proof.
  induction l as [|x l IH]; intros Hfg; cbn; [done|].
  rewrite (Hfg x) by left. rewrite IH; [done|].
  intros y Hy. apply Hfg. by right.
Qed.

Lemma masked_select_ext msk (l1 l2 : list scalar) :
  (forall p, msk !! p = Some true ->
             take B (drop (p * B) l1) = take B (drop (p * B) l2)) ->
  masked_select B msk l1 = masked_select B msk l2.
Proof.
  intros Hblocks. unfold masked_select. apply omap_ext_elem.
  intros [i b] Hin. apply elem_of_lookup_imap in Hin
    as (i' & b' & [= -> ->] & Hlook). cbn.
  destruct b'; [|done]. by rewrite Hblocks.
Qed.

Lemma mean_axis0_lookup blocks c :
  c < B ->
  mean_axis0 B blocks !! c
    = Some (mean (omap (fun b : list scalar => b !! c) blocks)).
Proof.
  intros Hc. unfold mean_axis0.
  by rewrite list_lookup_fmap, lookup_seq_lt.
Qed.

Lemma means_filled_step D fl z :
  means_filled D fl -> z ∉ D ->
  means_filled (z :: D)
    (masked_fill B (mask z) (mean_axis0 B (masked_select B (mask z) fl)) fl).
Proof.
  intros [Hlen Hinv] Hz.
  assert (Hsel : masked_select B (mask z) fl
                 = masked_select B (mask z) (flat input)).
  { apply masked_select_ext. intros p Hp.
    unfold label_mask in Hp. rewrite list_lookup_fmap in Hp.
    destruct (flat segs !! p) as [s|] eqn:Es; [|discriminate].
    cbn in Hp. injection Hp as Hp. apply bool_decide_eq_true in Hp. subst s.
    apply list_eq. intros j.
    destruct (decide (j < B)) as [Hj|Hj].
    - rewrite !lookup_take_lt by done. rewrite !lookup_drop.
      destruct (flat input !! (p * B + j)) as [x|] eqn:Ex.
      + rewrite (Hinv _ _ Ex).
        replace ((p * B + j) / B) with p
          by (apply Nat.div_unique with j; lia).
        rewrite Es. by rewrite decide_False.
      + apply lookup_ge_None. apply lookup_ge_None in Ex. lia.
    - rewrite !(proj2 (lookup_ge_None _ _)); [done|..];
        rewrite length_take; lia. }
  split; [unfold masked_fill; by rewrite length_imap|].
  intros k x Hx. unfold masked_fill. rewrite Hsel.
  rewrite list_lookup_imap, (Hinv _ _ Hx). cbn. f_equal.
  unfold selected, label_mask. rewrite list_lookup_fmap.
  destruct (flat segs !! (k / B)) as [s|] eqn:Es; cbn; [|done].
  destruct (decide (s = z)) as [->|Hne].
  - rewrite bool_decide_eq_true_2 by done.
    rewrite (decide_True (P := z ∈ z :: D)) by left.
    rewrite mean_axis0_lookup by (apply Nat.mod_upper_bound; lia).
    done.
  - rewrite bool_decide_eq_false_2 by done.
    destruct (decide (s ∈ D)) as [Hin|Hnin].
    + by rewrite decide_True by (by right).
    + rewrite decide_False; [done|].
      intros [?|?]%elem_of_cons; done.
Qed.

Lemma means_filled_loop labels D sp0 sp :
  NoDup labels ->
  (forall z, z ∈ labels -> z ∉ D) ->
  shape sp0 = shape input ->
  B = numel (drop (length (shape segs)) (shape input)) ->
  means_filled D (flat sp0) ->
  for_each labels (fill_segment_mean segs) sp0 = Ok sp ->
  means_filled (rev labels ++ D) (flat sp).
Proof.
  intros Hnd. revert D sp0.
  induction Hnd as [|z labels Hz Hnd IH]; intros D sp0 Hfresh Hsh HBeq Hinv;
    cbn.
  - by intros [= <-].
  - destruct (fill_segment_mean segs sp0 z) as [sp1|] eqn:E1; cbn;
      [|discriminate].
    intros Hrest.
    assert (Hsp1 : shape sp1 = shape input /\
                   flat sp1 = masked_fill B (mask z)
                     (mean_axis0 B (masked_select B (mask z) (flat sp0)))
                     (flat sp0)).
    { revert E1. unfold fill_segment_mean, check_mask. rewrite Hsh, <- HBeq.
      repeat (case_decide; cbn); try discriminate.
      destruct floating_point; [|discriminate]. by intros [= <-]. }
    destruct Hsp1 as [Hsh1 Hfl1].
    rewrite <- app_assoc. cbn [app].
    apply (IH (z :: D) sp1); [|done|done| |done].
    + intros z' Hz' [->|Hin]%elem_of_cons; [done|].
      eapply Hfresh; [by right|done].
    + rewrite Hfl1. apply means_filled_step; [done|].
      apply Hfresh. by left.
Qed.
End SuperpixelFacts.

(** The result of the loop of [__init__], element by element. *)
Lemma superpixel_means_lookup `{Torch} (input sp : tensor scalar) a b
      p c x z :
  shape input = [a; b; 3] ->
  length (shape (quickshift input)) = 2 ->
  for_each (unique (quickshift input))
           (fill_segment_mean (quickshift input)) input = Ok sp ->
  c < 3 ->
  flat input !! (p * 3 + c) = Some x ->
  flat (quickshift input) !! p = Some z ->
  flat sp !! (p * 3 + c)
    = Some (mean (segment_channel 3 (quickshift input) input z c)).
Proof.
  intros Hsh Hsegs Hloop Hc Hx Hz.
  pose proof (means_filled_loop (quickshift input) input 3 ltac:(lia)
                (unique (quickshift input)) [] input sp
                (unique_NoDup _)) as Hmeans.
  destruct Hmeans as [_ Hmeans].
  - intros z' _. apply not_elem_of_nil.
  - done.
  - rewrite Hsh, Hsegs. cbn. lia.
  - split; [done|]. intros k v Hv. rewrite Hv.
    by destruct (flat (quickshift input) !! (k / 3)).
  - done.
  - rewrite (Hmeans _ _ Hx).
    replace ((p * 3 + c) / 3) with p
      by (apply Nat.div_unique with c; lia).
    replace ((p * 3 + c) mod 3) with c
      by (apply Nat.mod_unique with p; lia).
    rewrite Hz. rewrite decide_True; [done|].
    rewrite app_nil_r, list_elem_of_In, <- in_rev, <- list_elem_of_In.
    apply unique_elem_of.
    by eapply list_elem_of_lookup_2.
Qed.

(** X16: once [ImageSampler.__init__] has returned, the superpixel image
    holds, at every pixel and channel, the mean of that channel over all
    pixels of the original image that the segmentation puts in the same
    segment. *)
Theorem sp_image_holds_segment_means `{Torch} input pf kw log s log'
        (Hinit : ImageSampler_init input pf kw log = (Ok s, log'))
        (Hsegs : length (shape (quickshift input)) = 2)
        p c x z
        (Hc : c < 3)
        (Hx : flat input !! (p * 3 + c) = Some x)
        (Hz : flat (segments s) !! p = Some z) :
  flat (sp_image s) !! (p * 3 + c)
    = Some (mean (segment_channel 3 (segments s) input z c)).
Proof.
  apply ImageSampler_init_ok in Hinit
    as (xb & row & Hchan & Hxb & _ & _ & _ & Hseg & _ & Hloop & _).
  rewrite Hseg in *.
  assert (Hrank : length (shape input) = 3).
  { unfold instance_batch, permute in Hxb. case_decide; [done|discriminate]. }
  destruct (shape input) as [|a [|b [|c3 [|? ?]]]] eqn:Hsh; try discriminate.
  cbn in Hchan. injection Hchan as ->.
  by eapply superpixel_means_lookup.
Qed.

Lemma sp_image_holds_segment_means_witness :
  flat (sp_image sampler_1x4) !! (3 * 3 + 1)
    = Some (mean (segment_channel 3 (segments sampler_1x4) img_1x4 1 1)) /\
  mean (segment_channel 3 (segments sampler_1x4) img_1x4 1 1) = (-6)%Z.
Proof.
  split; [|reflexivity].
  apply (@sp_image_holds_segment_means torch_Z img_1x4 threshold_model [] []
           sampler_1x4 [batch_1x4] init_1x4 eq_refl 3 1 (-4)%Z 1%Z);
    [lia|reflexivity|reflexivity].
Defined.

(** X17: in an image that [__generate_image] makes for a constructed
    sampler, every pixel of a segment whose feature is off in the mask shows,
    in each channel, the mean of the original image over that segment, and
    every other pixel shows the original image. *)
Theorem perturbed_pixels_show_segment_means `{Torch} input pf kw log s log'
        (Hinit : ImageSampler_init input pf kw log = (Ok s, log'))
        (Hsegs : length (shape (quickshift input)) = 2)
        row img'
        (Hgen : generate_image s row = Ok img')
        p c x z
        (Hc : c < 3)
        (Hx : flat input !! (p * 3 + c) = Some x)
        (Hz : flat (segments s) !! p = Some z) :
  flat img' !! (p * 3 + c)
    = Some (if feature_off row z
            then mean (segment_channel 3 (segments s) input z c)
            else x).
Proof.
  apply ImageSampler_init_ok in Hinit
    as (xb & row0 & Hchan & Hxb & _ & _ & _ & Hseg & _ & Hloop & Him & _).
  assert (Hrank : length (shape input) = 3).
  { unfold instance_batch, permute in Hxb. case_decide; [done|discriminate]. }
  destruct (shape input) as [|a [|b [|c3 [|? ?]]]] eqn:Hsh; try discriminate.
  cbn in Hchan. injection Hchan as ->.
  assert (Hsp : flat (sp_image s) !! (p * 3 + c)
                = Some (mean (segment_channel 3 (segments s) input z c))).
  { rewrite Hseg in *. by eapply superpixel_means_lookup. }
  rewrite <- Him in Hx.
  rewrite (generate_image_lookup _ _ _ _ _ Hgen Hx).
  unfold replaced. rewrite Him, Hsh, Hseg, Hsegs.
  change (numel (drop 2 [a; b; 3])) with 3.
  replace ((p * 3 + c) / 3) with p by (apply Nat.div_unique with c; lia).
  rewrite <- Hseg, Hz. by rewrite Hsp.
Qed.

Lemma perturbed_pixels_show_segment_means_witness :
  exists img',
    generate_image sampler_1x4 [1; 0]%Z = Ok img' /\
    flat img' !! (3 * 3 + 1) = Some (-6)%Z /\
    flat img' !! (1 * 3 + 2) = Some 3%Z.
Proof.
  eexists. split; [reflexivity|]. split.
  - apply (@perturbed_pixels_show_segment_means torch_Z img_1x4
             threshold_model [] [] sampler_1x4 [batch_1x4] init_1x4 eq_refl
             [1; 0]%Z _ eq_refl 3 1 (-4)%Z 1%Z);
      [lia|reflexivity|reflexivity].
  - apply (@perturbed_pixels_show_segment_means torch_Z img_1x4
             threshold_model [] [] sampler_1x4 [batch_1x4] init_1x4 eq_refl
             [1; 0]%Z _ eq_refl 1 2 3%Z 0%Z);
      [lia|reflexivity|reflexivity].
Defined.
